(** * Multi-CAN transmitter: periodic tasks and their registry

    A shallow embedding of [muti_sim.py]: the [PeriodicTask] worker
    (one thread per task, cooperative stop through a flag and an event)
    and the parts of [MultiCanTransmitterApp] that create, update, stop
    and drop tasks.

    Modelling conventions.
    - Python objects live in a heap; a task is named by its address, so
      the registry [periodic_tasks] is a list of addresses and a task
      that was dropped from the registry still exists (and may still
      have a live thread).
    - A worker thread is a control point ([Pc]) stored in the task's
      [thread] field; [PeriodicTask.schedule] lets one worker take one
      step.  The body of [with self.task_lock:] is one step: the lock
      makes the bodies of different workers mutually exclusive, and the
      main thread never takes it.
    - What the transport answers to the n-th call of [bus.send] is
      given by an oracle [inject]; what [can.interface.Bus] answers to
      an open request is given by a driver function.
    - [thread.join()] is a bounded loop over the worker's own steps;
      the bound is a parameter and the theorems say which bound is
      enough.
    - Tk widgets are reduced to the values they hold; a cycle time is
      a Python float: a rational in lowest terms (the rounding of
      binary floating point is not modelled) or one of the non-finite
      values; text fields are taken after parsing.
    - An exception that no handler catches ends the thread that
      raises it; [root.quit()] ends the application, after which
      nothing runs. *)

From Stdlib Require Import ZArith QArith String Lia.
From stdpp Require Import base option list relations.

(** ** The transport *)

(** An opened [can.interface.Bus] object, named by a handle. *)
Definition Bus := nat.

(** What one call of [bus.send] does: it returns, raises [can.CanError],
    or raises another [Exception]; the string is the exception text. *)
Inductive SendOutcome :=
| Sent
| CanError (e : string)
| OtherError (e : string).

(** [can.Message(arbitration_id=..., data=..., is_extended_id=...)]. *)
Record Message := mkMessage {
  arbitration_id : Z;
  msg_data : list Z;
  is_extended_id : bool
}.

(** Lines written with [print] by a worker. *)
Inductive Line :=
| BusNotInitialized
| TransmissionError (e : string)
| UnexpectedError (e : string).

(** A Python [float]: a finite number, or one of the values that
    [float(text)] yields for "inf", "-inf", "nan" and for a literal
    too large to represent. *)
Inductive PyFloat :=
| Finite (q : Q)
| PosInf
| NegInf
| NaN.

(** Exceptions raised in [_run] outside its [try]: nothing catches
    them and the thread ends. *)
Inductive Uncaught :=
| BadPayload        (* ValueError: a payload value is not in range(0, 256) *)
| TimeoutTooLarge.  (* OverflowError: the timeout of the wait is too large *)

(** Observable actions; the trace pairs each with the thread that did
    it ([None] is the main thread, [Some a] the worker of task [a]). *)
Inductive Event :=
| EPrint (l : Line)
| ESleep (seconds : Q)
| ESend (b : Bus) (m : Message) (r : SendOutcome)
| EWait (timeout : PyFloat)
| EShutdown (b : Bus)
| ERaise (e : Uncaught).

(** [can.Message] copies the payload with [bytearray(data)], which
    accepts values in [range(0, 256)] only. *)
Definition payload_ok (data : list Z) : bool :=
  forallb (fun v => Z.leb 0 v && Z.leb v 255) data.

(** [threading.TIMEOUT_MAX], in seconds, as it is on Linux (the value
    depends on the platform). *)
Definition TIMEOUT_MAX : Q := 9223372036.

(** Whether [Event.wait(timeout)] on an event that is not set raises:
    a timeout above [TIMEOUT_MAX] does; a timeout that is not positive
    (or is not a number) returns at once. *)
Definition wait_raises (timeout : PyFloat) : bool :=
  match timeout with
  | Finite q => negb (Qle_bool q TIMEOUT_MAX)
  | PosInf => true
  | NegInf | NaN => false
  end.

(** Control points of [PeriodicTask._run]. *)
Inductive Pc :=
| AtWhile     (* about to test [self.running], line 33 *)
| AtBody      (* test passed, about to test [self.bus], line 34 *)
| AtSleep     (* inside [time.sleep(1)], line 36 *)
| AtWait      (* inside [self._stop_event.wait(self.cycle_time)], line 53 *)
| Finished.   (* [_run] has returned: the thread is not alive *)

Definition is_send (e : Event) : bool :=
  match e with ESend _ _ _ => true | _ => false end.

Definition is_print (e : Event) : bool :=
  match e with EPrint _ => true | _ => false end.

Definition is_failure_line (e : Event) : bool :=
  match e with
  | EPrint (TransmissionError _) | EPrint (UnexpectedError _) => true
  | _ => false
  end.

Abbreviation Trace := (list (option nat * Event)).

(** Number of calls of [bus.send] made so far, by all workers. *)
Definition send_count (tr : Trace) : nat :=
  length (filter (fun x => is_send (snd x) = true) tr).

(** The events of one thread. *)
Definition events_of (who : option nat) (tr : Trace) : list Event :=
  snd <$> filter (fun x => fst x = who) tr.

(** The frames task [a] handed to [bus.send]. *)
Definition sends_of (a : nat) (tr : Trace) : list Event :=
  filter (fun e => is_send e = true) (events_of (Some a) tr).

(** ** PeriodicTask *)

Module PeriodicTask.

Record t := mk {
  bus : option Bus;
  can_id : Z;
  data : list Z;
  is_extended : bool;
  cycle_time : PyFloat;
  running : bool;
  thread : option Pc;
  _stop_event : bool
}.

Definition __init__ (bus : option Bus) (can_id : Z) (data : list Z)
    (is_extended : bool) (cycle_time : PyFloat) : t :=
  mk bus can_id data is_extended cycle_time true None false.

Definition set_data (v : list Z) (x : t) : t :=
  mk (bus x) (can_id x) v (is_extended x) (cycle_time x) (running x) (thread x) (_stop_event x).

Definition set_cycle_time (v : PyFloat) (x : t) : t :=
  mk (bus x) (can_id x) (data x) (is_extended x) v (running x) (thread x) (_stop_event x).

Definition set_is_extended (v : bool) (x : t) : t :=
  mk (bus x) (can_id x) (data x) v (cycle_time x) (running x) (thread x) (_stop_event x).

Definition set_running (v : bool) (x : t) : t :=
  mk (bus x) (can_id x) (data x) (is_extended x) (cycle_time x) v (thread x) (_stop_event x).

Definition set_thread (v : option Pc) (x : t) : t :=
  mk (bus x) (can_id x) (data x) (is_extended x) (cycle_time x) (running x) v (_stop_event x).

Definition set_stop_event (v : bool) (x : t) : t :=
  mk (bus x) (can_id x) (data x) (is_extended x) (cycle_time x) (running x) (thread x) v.

(** [thread.is_alive()] for a thread object that exists. *)
Definition pc_alive (p : Pc) : bool :=
  match p with Finished => false | _ => true end.

(** [self.thread is not None and self.thread.is_alive()]. *)
Definition is_alive (x : t) : bool :=
  match thread x with Some p => pc_alive p | None => false end.

(** [start]: a new thread is created unless one is alive. *)
Definition start (x : t) : t :=
  if is_alive x then x else set_thread (Some AtWhile) x.

(** The frame built at lines 41-45 from the fields as they are now. *)
Definition message (x : t) : Message :=
  mkMessage (can_id x) (data x) (is_extended x).

(** The [try ... except] around [bus.send], lines 46-51: what is
    printed for each outcome.  Nothing is re-raised. *)
Definition report (r : SendOutcome) : list Event :=
  match r with
  | Sent => []
  | CanError e => [EPrint (TransmissionError e)]
  | OtherError e => [EPrint (UnexpectedError e)]
  end.

(** One step of the thread running [_run], from control point [p];
    [r] is what the transport answers if this step calls [bus.send].
    The construction of the message (line 41) and the timed wait (line
    53) are outside the [try]: when they raise, the thread ends. *)
Definition _run (r : SendOutcome) (p : Pc) (x : t) : t * list Event :=
  match p with
  | AtWhile =>
      if running x then (set_thread (Some AtBody) x, [])
      else (set_thread (Some Finished) x, [])
  | AtBody =>
      match bus x with
      | None => (set_thread (Some AtSleep) x, [EPrint BusNotInitialized])
      | Some b =>
          if payload_ok (data x)
          then (set_thread (Some AtWait) x, ESend b (message x) r :: report r)
          else (set_thread (Some Finished) x, [ERaise BadPayload])
      end
  | AtSleep => (set_thread (Some Finished) x, [ESleep 1])
  | AtWait =>
      if _stop_event x then (set_thread (Some Finished) x, [])
      else if wait_raises (cycle_time x)
      then (set_thread (Some Finished) x, [ERaise TimeoutTooLarge])
      else (set_thread (Some AtWhile) x, [EWait (cycle_time x)])
  | Finished => (x, [])
  end.

(** The part of the world that threads act on. *)
Record Machine := mkMachine {
  heap : list t;
  trace : Trace
}.

Definition update (a : nat) (f : t -> t) (m : Machine) : Machine :=
  match heap m !! a with
  | Some x => mkMachine (<[a := f x]> (heap m)) (trace m)
  | None => m
  end.

(** Allocation of a new object: its address is the next free one. *)
Definition alloc (x : t) (m : Machine) : nat * Machine :=
  (length (heap m), mkMachine (heap m ++ [x]) (trace m)).

Definition alive (a : nat) (m : Machine) : bool :=
  match heap m !! a with Some x => is_alive x | None => false end.

Section Transport.

(** [inject n] is the outcome of the call of [bus.send] that is
    preceded by [n] earlier calls. *)
Variable inject : nat -> SendOutcome.

(** The scheduler gives the worker of task [a] one step. *)
Definition schedule (a : nat) (m : Machine) : Machine :=
  match heap m !! a with
  | Some x =>
      match thread x with
      | Some p =>
          let '(x', evs) := _run (inject (send_count (trace m))) p x in
          mkMachine (<[a := x']> (heap m)) (trace m ++ ((Some a,.) <$> evs))
      | None => m
      end
  | None => m
  end.

(** [self.thread.join()]: the caller waits while the worker runs. *)
Fixpoint join (fuel : nat) (a : nat) (m : Machine) : option Machine :=
  if alive a m then
    match fuel with
    | O => None
    | S n => join n a (schedule a m)
    end
  else Some m.

(** [stop], lines 56-60. *)
Definition stop (fuel : nat) (a : nat) (m : Machine) : option Machine :=
  let m1 := update a (set_running false) m in
  let m2 := update a (set_stop_event true) m1 in
  match heap m2 !! a with
  | Some x =>
      match thread x with
      | Some _ => join fuel a m2
      | None => Some m2
      end
  | None => Some m2
  end.

End Transport.

End PeriodicTask.

(** ** MultiCanTransmitterApp *)

Inductive ButtonState := normal | disabled.

(** A row of the message table.  The widget stores text produced from
    parsed values ([hex(can_id)], the payload bytes in hex, the cycle
    time in milliseconds, the id type); the model stores the values. *)
Record Row := mkRow {
  row_can_id : Z;
  row_data : list Z;
  row_cycle_time : PyFloat;
  row_id_type : string
}.

(** The text fields read by [add_message]: either they parse, or one of
    the conversions of lines 268-271 raises. *)
Inductive Entry :=
| Parsed (can_id : Z) (data : list Z) (cycle_ms : PyFloat) (id_type : string)
| Malformed (e : string).

(** The comboboxes read by [setup_can_bus]. *)
Record BusConfig := mkBusConfig {
  channel : string;
  face : string;
  bitrate : Z
}.

(** What [can.interface.Bus(channel, interface, bitrate)] does. *)
Inductive OpenOutcome :=
| Opened (b : Bus)
| OpenValueError (e : string)
| OpenCanError (e : string)
| OpenOtherError (e : string).

Definition Driver := string -> string -> Z -> OpenOutcome.

(** The messages passed to [log], one constructor per format string. *)
Inductive LogMsg :=
| BusInitialized (channel : string) (bitrate : Z)
| ErrorValue (e : string)
| ErrorInitializing (e : string)
| UnexpectedErr (e : string)
| AddedMessage (can_id : Z) (cycle_ms : PyFloat)
| UpdatedExisting (can_id : Z)
| StartedNew (can_id : Z)
| ErrorAdding (e : string)
| StoppedRemoved (can_id : Z)
| NoTaskFound (can_id : Z)
| RemovedMessage (can_id : Z)
| ErrorRemoving (e : string)
| NotInitializedAttempting
| FailedAborted
| StartedCyclic (can_id : Z) (cycle_ms : Z)
| ErrorDuringCyclic (can_id : Z) (e : string)
| CyclicStopped
| BusReset
| TableCleared
| ApplicationReset
| Exiting.

Inductive Dialog :=
| ShowWarning (title text : string)
| ShowError (title text : string).

(** Division and multiplication of a cycle time by a positive number
    (1000 everywhere in the source): a finite result is in lowest
    terms, a non-finite value stays what it is. *)
Definition fdiv (a : PyFloat) (b : Q) : PyFloat :=
  match a with
  | Finite q => Finite (Qred (q / b))
  | _ => a
  end.

Definition fmul (a : PyFloat) (b : Q) : PyFloat :=
  match a with
  | Finite q => Finite (Qred (q * b))
  | _ => a
  end.

(** [int(x)]: rounding towards zero for a finite [x]; for an infinity
    the conversion raises [OverflowError], for a NaN [ValueError], with
    the texts given. *)
Definition int_of (x : PyFloat) : Z + string :=
  match x with
  | Finite q => inl (Z.quot (Qnum q) (Zpos (Qden q)))
  | PosInf | NegInf => inr "cannot convert float infinity to integer"%string
  | NaN => inr "cannot convert float NaN to integer"%string
  end.

Fixpoint remove_first (a : nat) (l : list nat) : list nat :=
  match l with
  | [] => []
  | b :: l' => if Nat.eqb a b then l' else b :: remove_first a l'
  end.

Module MultiCanTransmitterApp.

Record t := mk {
  bus : option Bus;
  periodic_tasks : list nat;
  message_table : list (nat * Row);
  next_item : nat;
  log_text : list (nat * LogMsg);
  now : nat;
  start_button : ButtonState;
  stop_button : ButtonState;
  dialogs : list Dialog;
  machine : PeriodicTask.Machine;
  closed : bool
}.

Definition set_bus (v : option Bus) (s : t) : t :=
  mk v (periodic_tasks s) (message_table s) (next_item s) (log_text s) (now s)
     (start_button s) (stop_button s) (dialogs s) (machine s) (closed s).

Definition set_periodic_tasks (v : list nat) (s : t) : t :=
  mk (bus s) v (message_table s) (next_item s) (log_text s) (now s)
     (start_button s) (stop_button s) (dialogs s) (machine s) (closed s).

Definition set_message_table (v : list (nat * Row)) (s : t) : t :=
  mk (bus s) (periodic_tasks s) v (next_item s) (log_text s) (now s)
     (start_button s) (stop_button s) (dialogs s) (machine s) (closed s).

Definition set_next_item (v : nat) (s : t) : t :=
  mk (bus s) (periodic_tasks s) (message_table s) v (log_text s) (now s)
     (start_button s) (stop_button s) (dialogs s) (machine s) (closed s).

Definition set_log_text (v : list (nat * LogMsg)) (s : t) : t :=
  mk (bus s) (periodic_tasks s) (message_table s) (next_item s) v (now s)
     (start_button s) (stop_button s) (dialogs s) (machine s) (closed s).

Definition set_now (v : nat) (s : t) : t :=
  mk (bus s) (periodic_tasks s) (message_table s) (next_item s) (log_text s) v
     (start_button s) (stop_button s) (dialogs s) (machine s) (closed s).

Definition set_start_button (v : ButtonState) (s : t) : t :=
  mk (bus s) (periodic_tasks s) (message_table s) (next_item s) (log_text s) (now s)
     v (stop_button s) (dialogs s) (machine s) (closed s).

Definition set_stop_button (v : ButtonState) (s : t) : t :=
  mk (bus s) (periodic_tasks s) (message_table s) (next_item s) (log_text s) (now s)
     (start_button s) v (dialogs s) (machine s) (closed s).

Definition set_dialogs (v : list Dialog) (s : t) : t :=
  mk (bus s) (periodic_tasks s) (message_table s) (next_item s) (log_text s) (now s)
     (start_button s) (stop_button s) v (machine s) (closed s).

Definition set_machine (v : PeriodicTask.Machine) (s : t) : t :=
  mk (bus s) (periodic_tasks s) (message_table s) (next_item s) (log_text s) (now s)
     (start_button s) (stop_button s) (dialogs s) v (closed s).

Definition set_closed (v : bool) (s : t) : t :=
  mk (bus s) (periodic_tasks s) (message_table s) (next_item s) (log_text s) (now s)
     (start_button s) (stop_button s) (dialogs s) (machine s) v.

(** The state after [__init__]; the device enumeration and the lines it
    may log are left out. *)
Definition __init__ : t :=
  mk None [] [] 0 [] 0 normal disabled [] (PeriodicTask.mkMachine [] []) false.

(** [_append_log]: the oldest line is dropped once there are more than
    [max_lines]. *)
Definition _append_log (line : nat * LogMsg) (max_lines : nat) (s : t) : t :=
  let l := log_text s ++ [line] in
  set_log_text (if Nat.ltb max_lines (length l) then tail l else l) s.

(** [log]: the line is stamped with the current time.  The source
    queues the append on the Tk event loop; the model appends at once. *)
Definition log (msg : LogMsg) (s : t) : t :=
  _append_log (now s, msg) 1000 s.

Definition showwarning (title text : string) (s : t) : t :=
  set_dialogs (dialogs s ++ [ShowWarning title text]) s.

Definition showerror (title text : string) (s : t) : t :=
  set_dialogs (dialogs s ++ [ShowError title text]) s.

(** [setup_can_bus], lines 228-262.  The attribute
    [manual_channel_entry] is created nowhere, so reading it raises
    [AttributeError], which the last handler catches. *)
Definition setup_can_bus (cfg : BusConfig) (drv : Driver) (s : t) : bool * t :=
  match bus s with
  | Some _ => (true, s)
  | None =>
      if String.eqb (channel cfg) "Manual Input (Set Channel)" then
        let e := "no attribute manual_channel_entry"%string in
        (false, showerror "Error" e (log (UnexpectedErr e) s))
      else if String.eqb (channel cfg) "" then
        let e := "Please select or enter a valid CAN channel."%string in
        (false, showwarning "Input Error" e (log (ErrorValue e) s))
      else
        match drv (channel cfg) (face cfg) (bitrate cfg) with
        | Opened b =>
            (true, log (BusInitialized (channel cfg) (bitrate cfg)) (set_bus (Some b) s))
        | OpenValueError e =>
            (false, showwarning "Input Error" e (log (ErrorValue e) s))
        | OpenCanError e =>
            (false, showerror "Error" e (log (ErrorInitializing e) s))
        | OpenOtherError e =>
            (false, showerror "Error" e (log (UnexpectedErr e) s))
        end
  end.

(** The search loop of lines 275-279 and 315-319: the first task of the
    registry with this identifier. *)
Definition has_id (h : list PeriodicTask.t) (can_id : Z) (a : nat) : bool :=
  match h !! a with
  | Some x => Z.eqb (PeriodicTask.can_id x) can_id
  | None => false
  end.

Definition find_task (can_id : Z) (s : t) : option nat :=
  find (has_id (PeriodicTask.heap (machine s)) can_id) (periodic_tasks s).

Definition insert_row (r : Row) (s : t) : t :=
  set_next_item (S (next_item s))
    (set_message_table (message_table s ++ [(next_item s, r)]) s).

(** Construct a task bound to the bus the application holds now, start
    its thread and append it to the registry. *)
Definition spawn (can_id : Z) (data : list Z) (is_extended : bool)
    (cycle_time : PyFloat) (s : t) : t :=
  let x := PeriodicTask.__init__ (bus s) can_id data is_extended cycle_time in
  let '(a, m) := PeriodicTask.alloc x (machine s) in
  let m := PeriodicTask.update a PeriodicTask.start m in
  set_periodic_tasks (periodic_tasks s ++ [a]) (set_machine m s).

(** [add_message], lines 265-299. *)
Definition add_message (entry : Entry) (s : t) : t :=
  match entry with
  | Malformed e => showerror "Error" e (log (ErrorAdding e) s)
  | Parsed can_id data cycle_ms id_type =>
      let cycle_time := fdiv cycle_ms 1000 in
      let is_extended := String.eqb id_type "Extended" in
      let s := log (AddedMessage can_id (fmul cycle_time 1000)) s in
      let s :=
        match find_task can_id s with
        | Some a =>
            let m := PeriodicTask.update a (PeriodicTask.set_data data) (machine s) in
            let m := PeriodicTask.update a (PeriodicTask.set_cycle_time cycle_time) m in
            let m := PeriodicTask.update a (PeriodicTask.set_is_extended is_extended) m in
            log (UpdatedExisting can_id) (set_machine m s)
        | None =>
            log (StartedNew can_id) (spawn can_id data is_extended cycle_time s)
        end in
      insert_row (mkRow can_id data (fmul cycle_time 1000) id_type) s
  end.

(** The loop body of [start_cyclic], lines 348-374, for one row.  The
    conversions come first and are inside the [try]: when [int] raises
    (a cycle time that is not finite) the row is logged and skipped,
    and no task is created for it. *)
Definition start_row (r : Row) (s : t) : t :=
  let cycle_time_float := row_cycle_time r in
  match int_of cycle_time_float with
  | inl cycle_time_int =>
      let is_extended := String.eqb (row_id_type r) "Extended" in
      log (StartedCyclic (row_can_id r) cycle_time_int)
        (spawn (row_can_id r) (row_data r) is_extended (fdiv cycle_time_float 1000) s)
  | inr e =>
      log (ErrorDuringCyclic (row_can_id r) e) s
  end.

Definition start_rows (rows : list Row) (s : t) : t :=
  fold_left (fun s r => start_row r s) rows s.

(** [start_cyclic] from line 346 on: the registry is set to a new empty
    list and filled from the rows of the table. *)
Definition rebuild (s : t) : t :=
  let s := set_periodic_tasks [] s in
  let s := start_rows (snd <$> message_table s) s in
  set_stop_button normal (set_start_button disabled s).

(** [start_cyclic], lines 340-376. *)
Definition start_cyclic (cfg : BusConfig) (drv : Driver) (s : t) : t :=
  match bus s with
  | None =>
      let s := log NotInitializedAttempting s in
      match setup_can_bus cfg drv s with
      | (true, s) => rebuild s
      | (false, s) => log FailedAborted s
      end
  | Some _ => rebuild s
  end.

Section Transport.

Variable inject : nat -> SendOutcome.
Variable fuel : nat.

(** [for task in tasks: task.stop()]. *)
Fixpoint stop_each (tasks : list nat) (m : PeriodicTask.Machine)
    : option PeriodicTask.Machine :=
  match tasks with
  | [] => Some m
  | a :: rest => m' ← PeriodicTask.stop inject fuel a m; stop_each rest m'
  end.

(** [stop_cyclic], lines 379-385. *)
Definition stop_cyclic (s : t) : option t :=
  m ← stop_each (periodic_tasks s) (machine s);
  Some (set_stop_button disabled (set_start_button normal
         (log CyclicStopped (set_periodic_tasks [] (set_machine m s))))).

(** The loop body of [remove_message], lines 310-333, for one selected
    item; an item that is not in the table makes the widget raise. *)
Definition remove_item (iid : nat) (s : t) : option t :=
  match List.find (fun ir => Nat.eqb (fst ir) iid) (message_table s) with
  | None => Some (log (ErrorRemoving "Item not found") s)
  | Some (_, r) =>
      let can_id_int := row_can_id r in
      s ← match find_task can_id_int s with
          | Some a =>
              m ← PeriodicTask.stop inject fuel a (machine s);
              Some (log (StoppedRemoved can_id_int)
                     (set_periodic_tasks (remove_first a (periodic_tasks s))
                        (set_machine m s)))
          | None => Some (log (NoTaskFound can_id_int) s)
          end;
      Some (log (RemovedMessage can_id_int)
             (set_message_table
                (filter (fun ir => fst ir ≠ iid) (message_table s)) s))
  end.

Fixpoint remove_items (sel : list nat) (s : t) : option t :=
  match sel with
  | [] => Some s
  | iid :: rest => s' ← remove_item iid s; remove_items rest s'
  end.

(** [remove_message], lines 301-337. *)
Definition remove_message (selected_items : list nat) (s : t) : option t :=
  match selected_items with
  | [] => Some (showwarning "Warning" "No message selected for removal." s)
  | _ =>
      s ← remove_items selected_items s;
      Some (match periodic_tasks s with
            | [] => set_stop_button disabled s
            | _ => s
            end)
  end.

(** [reset], lines 389-409. *)
Definition reset (s : t) : option t :=
  m ← stop_each (periodic_tasks s) (machine s);
  let s := set_periodic_tasks [] (set_machine m s) in
  let s :=
    match bus s with
    | Some b =>
        let m := PeriodicTask.mkMachine (PeriodicTask.heap (machine s))
                   (PeriodicTask.trace (machine s) ++ [(None, EShutdown b)]) in
        log BusReset (set_bus None (set_machine m s))
    | None => s
    end in
  let s := log TableCleared (set_message_table [] s) in
  let s := set_stop_button disabled (set_start_button normal s) in
  Some (log ApplicationReset s).

(** [on_closing], lines 412-416.  [root.quit()] ends the main loop
    and with it the process. *)
Definition on_closing (s : t) : option t :=
  let s := log Exiting s in
  m ← stop_each (periodic_tasks s) (machine s);
  Some (set_closed true (set_machine m s)).

(** What can happen next: the operator uses a widget, the scheduler
    runs a worker, or time passes. *)
Inductive Op :=
| OpAdd (entry : Entry)
| OpRemove (selected_items : list nat)
| OpStart (cfg : BusConfig) (drv : Driver)
| OpStop
| OpReset
| OpClose
| OpWorker (a : nat)
| OpClock (n : nat).

(** A disabled button does not call its command; once the application
    is closed nothing happens any more (the workers are daemon threads
    and end with the process). *)
Definition exec (o : Op) (s : t) : option t :=
  if closed s then Some s else
  match o with
  | OpAdd entry => Some (add_message entry s)
  | OpRemove sel => remove_message sel s
  | OpStart cfg drv =>
      match start_button s with
      | normal => Some (start_cyclic cfg drv s)
      | disabled => Some s
      end
  | OpStop =>
      match stop_button s with
      | normal => stop_cyclic s
      | disabled => Some s
      end
  | OpReset => reset s
  | OpClose => on_closing s
  | OpWorker a => Some (set_machine (PeriodicTask.schedule inject a (machine s)) s)
  | OpClock n => Some (set_now (now s + n) s)
  end.

Fixpoint run (ops : list Op) (s : t) : option t :=
  match ops with
  | [] => Some s
  | o :: rest => s' ← exec o s; run rest s'
  end.

End Transport.

End MultiCanTransmitterApp.

(** ** Vocabulary of the properties *)

(** The writes the main thread makes to the fields of a live task:
    the three of the update path of [add_message] and the two of
    [stop]. *)
Inductive setter : (PeriodicTask.t -> PeriodicTask.t) -> Prop :=
| setter_data v : setter (PeriodicTask.set_data v)
| setter_cycle_time v : setter (PeriodicTask.set_cycle_time v)
| setter_is_extended v : setter (PeriodicTask.set_is_extended v)
| setter_running : setter (PeriodicTask.set_running false)
| setter_stop_event : setter (PeriodicTask.set_stop_event true).

(** The ways the machine changes: a field write, the creation and
    start of a task, a worker step, the shutdown of a bus. *)
Inductive mstep (inject : nat -> SendOutcome)
    : PeriodicTask.Machine -> PeriodicTask.Machine -> Prop :=
| mstep_update m a f :
    setter f -> mstep inject m (PeriodicTask.update a f m)
| mstep_spawn m x :
    mstep inject m
      (PeriodicTask.update (length (PeriodicTask.heap m)) PeriodicTask.start
         (snd (PeriodicTask.alloc x m)))
| mstep_schedule m a :
    mstep inject m (PeriodicTask.schedule inject a m)
| mstep_shutdown m b :
    mstep inject m
      (PeriodicTask.mkMachine (PeriodicTask.heap m)
         (PeriodicTask.trace m ++ [(None, EShutdown b)])).

(** The task at address [a] exists and satisfies [P]. *)
Definition holds_at (P : PeriodicTask.t -> Prop) (a : nat)
    (m : PeriodicTask.Machine) : Prop :=
  exists x, PeriodicTask.heap m !! a = Some x /\ P x.

(** A task after [stop] has returned. *)
Definition stopped (x : PeriodicTask.t) : Prop :=
  PeriodicTask.running x = false /\
  PeriodicTask._stop_event x = true /\
  PeriodicTask.is_alive x = false.

(** A task whose cancellation has been requested. *)
Definition cancelled (x : PeriodicTask.t) : Prop :=
  PeriodicTask.running x = false /\ PeriodicTask._stop_event x = true.

Definition unbound (x : PeriodicTask.t) : Prop :=
  PeriodicTask.bus x = None.

(** Number of registry entries whose task has identifier [can_id]. *)
Definition count_id (can_id : Z) (s : MultiCanTransmitterApp.t) : nat :=
  length (filter
    (fun a => MultiCanTransmitterApp.has_id
                (PeriodicTask.heap (MultiCanTransmitterApp.machine s)) can_id a = true)
    (MultiCanTransmitterApp.periodic_tasks s)).

(** Every registry entry is the address of an allocated task. *)
Definition registry_valid (s : MultiCanTransmitterApp.t) : Prop :=
  Forall (fun a => a < length (PeriodicTask.heap (MultiCanTransmitterApp.machine s)))
    (MultiCanTransmitterApp.periodic_tasks s).

(** Two states of a task that differ at most in the payload, the cycle
    time and the extended flag: same bus, same flags, same thread. *)
Definition same_control (x y : PeriodicTask.t) : Prop :=
  PeriodicTask.bus x = PeriodicTask.bus y /\
  PeriodicTask.can_id x = PeriodicTask.can_id y /\
  PeriodicTask.running x = PeriodicTask.running y /\
  PeriodicTask.thread x = PeriodicTask.thread y /\
  PeriodicTask._stop_event x = PeriodicTask._stop_event y.

(** The task carries the values of the entry. *)
Definition carries (can_id : Z) (data : list Z) (cycle_ms : PyFloat) (id_type : string)
    (x : PeriodicTask.t) : Prop :=
  PeriodicTask.can_id x = can_id /\
  PeriodicTask.data x = data /\
  PeriodicTask.cycle_time x = fdiv cycle_ms 1000 /\
  PeriodicTask.is_extended x = String.eqb id_type "Extended".

Definition entry_id (e : Entry) : option Z :=
  match e with Parsed can_id _ _ _ => Some can_id | Malformed _ => None end.

(** [add_message] called once per entry, in order. *)
Definition add_messages (entries : list Entry) (s : MultiCanTransmitterApp.t)
    : MultiCanTransmitterApp.t :=
  fold_left (fun s e => MultiCanTransmitterApp.add_message e s) entries s.

(** [stop] called [n] times in a row on the same task. *)
Fixpoint stop_n (inject : nat -> SendOutcome) (fuel n a : nat)
    (m : PeriodicTask.Machine) : option PeriodicTask.Machine :=
  match n with
  | O => Some m
  | S k => m' ← PeriodicTask.stop inject fuel a m; stop_n inject fuel k a m'
  end.

(** [n] full turns of the loop of [_run]: the test of the [while], the
    body, the timed wait. *)
Definition cycles (inject : nat -> SendOutcome) (n a : nat)
    (m : PeriodicTask.Machine) : PeriodicTask.Machine :=
  Nat.iter (3 * n) (PeriodicTask.schedule inject a) m.

Definition failed (r : SendOutcome) : bool :=
  match r with Sent => false | _ => true end.

(** Console lines about a failed send written by the worker of [a]. *)
Definition failure_lines (a : nat) (tr : Trace) : nat :=
  length (filter (fun e => is_failure_line e = true) (events_of (Some a) tr)).

(** Console lines of any kind written by the worker of [a]. *)
Definition printed (evs : list Event) : list Event :=
  filter (fun e => is_print e = true) evs.

(** The exceptions that [_run] does not catch, among the events of a
    step. *)
Definition raised (evs : list Event) : list Uncaught :=
  omap (fun e => match e with ERaise u => Some u | _ => None end) evs.

(** How many of the calls number [c], [c+1], ..., [c+n-1] fail. *)
Fixpoint failures (inject : nat -> SendOutcome) (c n : nat) : nat :=
  match n with
  | O => 0
  | S k => failures inject c k + (if failed (inject (c + k)) then 1 else 0)
  end.

(** A transport that rejects every third call, starting with the
    first: calls number 0, 3, 6, ... fail. *)
Definition every_third : nat -> SendOutcome :=
  fun k => if Nat.eqb (k mod 3) 0 then CanError "injected" else Sent.

(** Whether the conversions of [start_cyclic] succeed on a row. *)
Definition row_converts (r : Row) : bool :=
  match int_of (row_cycle_time r) with inl _ => true | inr _ => false end.

(** The rows [start_cyclic] makes a task of: the others are logged
    and skipped. *)
Definition started_rows (rows : list Row) : list Row :=
  filter (fun r => row_converts r = true) rows.

(** The task a row of the table gives rise to in [start_cyclic]. *)
Definition task_of_row (b : option Bus) (r : Row) : PeriodicTask.t :=
  PeriodicTask.mk b (row_can_id r) (row_data r)
    (String.eqb (row_id_type r) "Extended")
    (fdiv (row_cycle_time r) 1000) true (Some AtWhile) false.

(** Examples used to instantiate the theorems: one message, a driver
    that opens bus 7, and the state after "Add Message" followed by
    "Start Cyclic Transmission" (task 0 was created before the bus was
    opened, task 1 after). *)
Definition demo_entry : Entry := Parsed 256 [1%Z; 2%Z] (Finite 100) "Standard".
Definition demo_cfg : BusConfig := mkBusConfig "can0" "socketcan" 250000.
Definition demo_drv : Driver := fun _ _ _ => Opened 7.
Definition demo_bad_drv : Driver := fun _ _ _ => OpenCanError "no such channel".
Definition demo_ok : nat -> SendOutcome := fun _ => Sent.
Definition demo_added : MultiCanTransmitterApp.t :=
  MultiCanTransmitterApp.add_message demo_entry MultiCanTransmitterApp.__init__.
Definition demo_started : MultiCanTransmitterApp.t :=
  MultiCanTransmitterApp.start_cyclic demo_cfg demo_drv demo_added.

(** ** CyclicScheduler *)

(** What a call that raises leaves behind: the name of the exception
    and of the attribute that is missing. *)
Inductive Raised :=
| AttributeError (attr : string).

Module CyclicScheduler.

(** A task is the pair passed to [add_task]; the function is named by
    a number. *)
Record t := mk {
  tasks : list (nat * Q)
}.

Definition __init__ : t := mk [].

Definition add_task (task_function : nat) (cycle_time : Q) (s : t) : t :=
  mk (tasks s ++ [(task_function, cycle_time)]).

Definition stop (s : t) : t := mk [].

(** [remove_task], lines 75-78: [with self.lock:] reads an attribute
    that [__init__] does not create, so the call raises before the
    list is looked at. *)
Definition remove_task (task : nat * Q) (s : t) : t * option Raised :=
  (s, Some (AttributeError "lock")).

(** A use of the scheduler. *)
Inductive Call :=
| AddTask (task_function : nat) (cycle_time : Q)
| RemoveTask (task : nat * Q)
| StopAll.

Definition call (c : Call) (s : t) : t * option Raised :=
  match c with
  | AddTask f ct => (add_task f ct s, None)
  | RemoveTask task => remove_task task s
  | StopAll => (stop s, None)
  end.

Definition calls (cs : list Call) (s : t) : t :=
  fold_left (fun s c => fst (call c s)) cs s.

End CyclicScheduler.

(** The tasks a sequence of calls asks to add after its last
    [StopAll]. *)
Fixpoint added_since_stop (cs : list CyclicScheduler.Call) (acc : list (nat * Q))
    : list (nat * Q) :=
  match cs with
  | [] => acc
  | CyclicScheduler.AddTask f ct :: rest => added_since_stop rest (acc ++ [(f, ct)])
  | CyclicScheduler.RemoveTask _ :: rest => added_since_stop rest acc
  | CyclicScheduler.StopAll :: rest => added_since_stop rest []
  end.

(** ** Device enumeration *)

(** A value found under a key of a detected configuration: a list, or
    something else (shown by its text). *)
Inductive Detected :=
| One (v : string)
| Several (vs : list string).

(** An element of [can.interface.detect_available_configs()]: a [dict]
    (of which the keys ['channel'] and ['interface'] are read) or
    another object. *)
Inductive Config :=
| DictConfig (channel interface : option Detected)
| OtherConfig.

(** [d.get(key, '')] followed by the test [isinstance(v, list)]. *)
Definition entries_of (v : option Detected) : list string :=
  match v with
  | None => [""%string]
  | Some (One s) => [s]
  | Some (Several vs) => vs
  end.

(** [get_available_devices], lines 203-223.  The second component tells
    whether "No CAN devices detected" was logged. *)
Definition get_available_devices (interfaces : list Config) : list string * bool :=
  let devices :=
    flat_map (fun i => match i with
                       | DictConfig ch _ => entries_of ch
                       | OtherConfig => ["Unknown Device"%string]
                       end) interfaces in
  match devices with
  | [] => (["Manual Input (Set Channel)"%string], true)
  | _ => (devices, false)
  end.


(** ** Further vocabulary *)

(** Two states of a task that differ at most in the thread. *)
Definition same_fields (x y : PeriodicTask.t) : Prop :=
  PeriodicTask.bus x = PeriodicTask.bus y /\
  PeriodicTask.can_id x = PeriodicTask.can_id y /\
  PeriodicTask.data x = PeriodicTask.data y /\
  PeriodicTask.is_extended x = PeriodicTask.is_extended y /\
  PeriodicTask.cycle_time x = PeriodicTask.cycle_time y /\
  PeriodicTask.running x = PeriodicTask.running y /\
  PeriodicTask._stop_event x = PeriodicTask._stop_event y.

(** The thread is inside the send loop. *)
Definition in_loop (x : PeriodicTask.t) : Prop :=
  PeriodicTask.thread x = Some AtWhile \/
  PeriodicTask.thread x = Some AtBody \/
  PeriodicTask.thread x = Some AtWait.

(** A transmitter that transmits: bound to a bus, not cancelled, with
    a payload of bytes and a cycle time the wait accepts, its thread in
    the loop. *)
Definition looping (x : PeriodicTask.t) : Prop :=
  PeriodicTask.running x = true /\
  PeriodicTask._stop_event x = false /\
  is_Some (PeriodicTask.bus x) /\
  payload_ok (PeriodicTask.data x) = true /\
  wait_raises (PeriodicTask.cycle_time x) = false /\
  in_loop x.

(** A task whose [running] flag is cleared and whose thread, if any,
    is at the head of the loop or has finished. *)
Definition idle (x : PeriodicTask.t) : Prop :=
  PeriodicTask.running x = false /\
  (PeriodicTask.thread x = None \/
   PeriodicTask.thread x = Some AtWhile \/
   PeriodicTask.thread x = Some Finished).

(** Sends still owed by a cancelled thread: the body in progress. *)
Definition budget (x : PeriodicTask.t) : nat :=
  match PeriodicTask.thread x with
  | Some AtBody => 1
  | _ => 0
  end.

(** The event, if it is a send, is a frame with identifier [c] on bus
    [b]. *)
Definition frame_of (c : Z) (b : option Bus) (e : Event) : Prop :=
  match e with
  | ESend b' m _ => Some b' = b /\ arbitration_id m = c
  | _ => True
  end.

(** The task at [a] is allocated and is not in the registry. *)
Definition outside (a : nat) (s : MultiCanTransmitterApp.t) : Prop :=
  (a ∉ MultiCanTransmitterApp.periodic_tasks s) /\
  a < length (PeriodicTask.heap (MultiCanTransmitterApp.machine s)).

(** The registry names allocated tasks, each once. *)
Definition registry_ok (s : MultiCanTransmitterApp.t) : Prop :=
  registry_valid s /\ NoDup (MultiCanTransmitterApp.periodic_tasks s).

(** What an operation of the main thread does to the heap and the
    registry: no task is deallocated, a well-formed registry stays so,
    and a task outside the registry stays outside and is not written. *)
Definition keeps_frame (s s' : MultiCanTransmitterApp.t) : Prop :=
  length (PeriodicTask.heap (MultiCanTransmitterApp.machine s))
  <= length (PeriodicTask.heap (MultiCanTransmitterApp.machine s')) /\
  (registry_ok s -> registry_ok s') /\
  (forall a, outside a s ->
     outside a s' /\
     PeriodicTask.heap (MultiCanTransmitterApp.machine s') !! a
     = PeriodicTask.heap (MultiCanTransmitterApp.machine s) !! a).

Definition log_bounded (s : MultiCanTransmitterApp.t) : Prop :=
  length (MultiCanTransmitterApp.log_text s) <= 1000.

(** The item identifiers of the table are below the next one to be
    given out. *)
Definition table_fresh (s : MultiCanTransmitterApp.t) : Prop :=
  Forall (fun ir => fst ir < MultiCanTransmitterApp.next_item s)
    (MultiCanTransmitterApp.message_table s).

(** An entry that parses and whose cycle time is finite: the row it
    leaves in the table converts in [start_cyclic]. *)
Definition entry_starts (e : Entry) : bool :=
  match e with
  | Parsed _ _ (Finite _) _ => true
  | _ => false
  end.

Definition is_parsed (e : Entry) : bool :=
  match e with Parsed _ _ _ _ => true | Malformed _ => false end.

Definition parsed_count (entries : list Entry) : nat :=
  length (filter (fun e => is_parsed e = true) entries).

(** The row [add_message] writes for an entry that parses. *)
Definition row_of_entry (e : Entry) : list Row :=
  match e with
  | Parsed can_id data cycle_ms id_type =>
      [mkRow can_id data (fmul (fdiv cycle_ms 1000) 1000) id_type]
  | Malformed _ => []
  end.

Definition main_events (s : MultiCanTransmitterApp.t) : list Event :=
  events_of None (PeriodicTask.trace (MultiCanTransmitterApp.machine s)).

(** The state after [start_cyclic] (which opens bus 7), [add_message]
    and [start_cyclic] again: task 0, created by [add_message], is
    bound to the bus and is not in the registry, which holds task 1. *)
Definition demo_dropped : MultiCanTransmitterApp.t :=
  MultiCanTransmitterApp.start_cyclic demo_cfg demo_drv
    (MultiCanTransmitterApp.add_message demo_entry
       (MultiCanTransmitterApp.start_cyclic demo_cfg demo_drv
          MultiCanTransmitterApp.__init__)).

(** * Facts about the machine *)

Section MachineFacts.

Import PeriodicTask.

Variable inject : nat -> SendOutcome.

Lemma machine_eta (m : Machine) : mkMachine (heap m) (trace m) = m.
Proof. destruct m; reflexivity. Qed.

Lemma update_trace a f m : trace (update a f m) = trace m.
Proof. unfold update. destruct (heap m !! a); reflexivity. Qed.

Lemma update_length a f m : length (heap (update a f m)) = length (heap m).
Proof.
  unfold update. destruct (heap m !! a); simpl; [apply length_insert | reflexivity].
Qed.

Lemma update_lookup_eq a f m x :
  heap m !! a = Some x -> heap (update a f m) !! a = Some (f x).
Proof.
  intros H. unfold update. rewrite H. simpl.
  apply list_lookup_insert_eq. eapply lookup_lt_Some; eauto.
Qed.

Lemma update_lookup_ne a b f m :
  a <> b -> heap (update b f m) !! a = heap m !! a.
Proof.
  intros H. unfold update. destruct (heap m !! b); simpl; [|reflexivity].
  apply list_lookup_insert_ne. congruence.
Qed.

Lemma update_id a f m :
  (forall x, heap m !! a = Some x -> f x = x) -> update a f m = m.
Proof.
  intros H. unfold update. destruct (heap m !! a) as [x|] eqn:E; [|reflexivity].
  rewrite (H x eq_refl). rewrite list_insert_id by assumption. apply machine_eta.
Qed.

Lemma schedule_length a m : length (heap (schedule inject a m)) = length (heap m).
Proof.
  unfold schedule. destruct (heap m !! a) as [x|]; [|reflexivity].
  destruct (thread x) as [p|]; [|reflexivity].
  destruct (_run _ p x). simpl. apply length_insert.
Qed.

Lemma schedule_lookup_ne a b m :
  a <> b -> heap (schedule inject b m) !! a = heap m !! a.
Proof.
  intros H. unfold schedule. destruct (heap m !! b) as [x|]; [|reflexivity].
  destruct (thread x) as [p|]; [|reflexivity].
  destruct (_run _ p x). simpl. apply list_lookup_insert_ne. congruence.
Qed.

(** What a step of the worker of [a] does to the task and the trace. *)
Lemma schedule_at a m x p :
  heap m !! a = Some x -> thread x = Some p ->
  let r := inject (send_count (trace m)) in
  heap (schedule inject a m) !! a = Some (fst (_run r p x)) /\
  trace (schedule inject a m) = trace m ++ ((Some a,.) <$> snd (_run r p x)).
Proof.
  intros H Hp. unfold schedule. rewrite H, Hp.
  destruct (_run _ p x) as [x' evs]. simpl. split; [|reflexivity].
  apply list_lookup_insert_eq. eapply lookup_lt_Some; eauto.
Qed.

Lemma schedule_no_thread a m x :
  heap m !! a = Some x -> thread x = None -> schedule inject a m = m.
Proof. intros H Hp. unfold schedule. rewrite H, Hp. reflexivity. Qed.

Lemma schedule_finished a m x :
  heap m !! a = Some x -> thread x = Some Finished -> schedule inject a m = m.
Proof.
  intros H Hp. unfold schedule. rewrite H, Hp. simpl.
  rewrite list_insert_id by assumption. rewrite app_nil_r. apply machine_eta.
Qed.

Lemma schedule_absent a m : heap m !! a = None -> schedule inject a m = m.
Proof. intros H. unfold schedule. rewrite H. reflexivity. Qed.

(** A thread that is not alive takes no step. *)
Lemma schedule_not_alive a m : alive a m = false -> schedule inject a m = m.
Proof.
  unfold alive, is_alive. destruct (heap m !! a) as [x|] eqn:E.
  - destruct (thread x) as [p|] eqn:Ep.
    + destruct p; simpl; try discriminate. intros _. eapply schedule_finished; eauto.
    + intros _. eapply schedule_no_thread; eauto.
  - intros _. apply schedule_absent; assumption.
Qed.

(** Events of other threads do not show among those of [a]. *)
Lemma events_of_app who tr1 tr2 :
  events_of who (tr1 ++ tr2) = events_of who tr1 ++ events_of who tr2.
Proof. unfold events_of. rewrite filter_app, fmap_app. reflexivity. Qed.

Lemma events_of_tagged_eq who evs :
  events_of who ((who,.) <$> evs) = evs.
Proof.
  unfold events_of. induction evs as [|e evs IH]; [reflexivity|].
  simpl. rewrite filter_cons. simpl. destruct (decide (who = who)); [|congruence].
  simpl. f_equal. exact IH.
Qed.

Lemma events_of_tagged_ne who who' evs :
  who <> who' -> events_of who ((who',.) <$> evs) = [].
Proof.
  intros H. unfold events_of. induction evs as [|e evs IH]; [reflexivity|].
  simpl. rewrite filter_cons. simpl. destruct (decide (who' = who)); [congruence|].
  exact IH.
Qed.

Lemma sends_of_app a tr1 tr2 :
  sends_of a (tr1 ++ tr2) = sends_of a tr1 ++ sends_of a tr2.
Proof. unfold sends_of. rewrite events_of_app, filter_app. reflexivity. Qed.

Lemma send_count_app tr1 tr2 :
  send_count (tr1 ++ tr2) = send_count tr1 + send_count tr2.
Proof. unfold send_count. rewrite filter_app, length_app. reflexivity. Qed.

Lemma failure_lines_app a tr1 tr2 :
  failure_lines a (tr1 ++ tr2) = failure_lines a tr1 + failure_lines a tr2.
Proof. unfold failure_lines. rewrite events_of_app, filter_app, length_app. reflexivity. Qed.

(** ** Properties of a task that every change of the machine keeps *)

Section Stable.

Variable P : t -> Prop.

Hypothesis P_setter : forall f x, setter f -> P x -> P (f x).
Hypothesis P_run : forall r p x, thread x = Some p -> P x -> P (fst (_run r p x)).

Lemma mstep_stable a m m' :
  mstep inject m m' -> holds_at P a m -> holds_at P a m'.
Proof.
  intros Hstep (x & Hx & HP). destruct Hstep as [m b f Hf | m y | m b | m b].
  - destruct (decide (a = b)) as [->|Hne].
    + exists (f x). split; [apply update_lookup_eq; assumption | auto].
    + exists x. split; [rewrite update_lookup_ne; assumption | assumption].
  - exists x. split; [|assumption].
    rewrite update_lookup_ne.
    + simpl. apply lookup_app_l_Some. assumption.
    + apply lookup_lt_Some in Hx. lia.
  - destruct (decide (a = b)) as [->|Hne].
    + destruct (thread x) as [p|] eqn:Ep.
      * destruct (schedule_at b m x p Hx Ep) as [H1 _].
        eexists. split; [exact H1 | auto].
      * rewrite (schedule_no_thread b m x Hx Ep). exists x; auto.
    + exists x. split; [rewrite schedule_lookup_ne; assumption | assumption].
  - exists x. auto.
Qed.

Lemma msteps_stable a m m' :
  rtc (mstep inject) m m' -> holds_at P a m -> holds_at P a m'.
Proof. induction 1; eauto using mstep_stable. Qed.

(** If in addition a task with [P] never calls [bus.send], the frames
    it has sent stay what they are. *)
Hypothesis P_silent : forall r p x,
  thread x = Some p -> P x -> filter (fun e => is_send e = true) (snd (_run r p x)) = [].

Lemma mstep_silent a m m' :
  mstep inject m m' -> holds_at P a m ->
  sends_of a (trace m') = sends_of a (trace m).
Proof.
  intros Hstep (x & Hx & HP). destruct Hstep as [m b f Hf | m y | m b | m b].
  - rewrite update_trace. reflexivity.
  - rewrite update_trace. reflexivity.
  - destruct (decide (a = b)) as [->|Hne].
    + destruct (thread x) as [p|] eqn:Ep.
      * destruct (schedule_at b m x p Hx Ep) as [_ H2]. rewrite H2.
        rewrite sends_of_app. unfold sends_of at 2.
        rewrite events_of_tagged_eq, P_silent by assumption.
        apply app_nil_r.
      * rewrite (schedule_no_thread b m x Hx Ep). reflexivity.
    + unfold schedule. destruct (heap m !! b) as [y|]; [|reflexivity].
      destruct (thread y) as [p|]; [|reflexivity].
      destruct (_run _ p y) as [y' evs]. simpl.
      rewrite sends_of_app. unfold sends_of at 2.
      rewrite events_of_tagged_ne by congruence. apply app_nil_r.
  - simpl. rewrite sends_of_app. unfold sends_of at 2, events_of.
    rewrite filter_cons. simpl. destruct (decide (None = Some a)); [congruence|].
    apply app_nil_r.
Qed.

Lemma msteps_silent a m m' :
  rtc (mstep inject) m m' -> holds_at P a m ->
  holds_at P a m' /\ sends_of a (trace m') = sends_of a (trace m).
Proof.
  induction 1 as [|m1 m2 m3 H12 H23 IH]; intros H; [auto|].
  destruct (IH (mstep_stable _ _ _ H12 H)) as [H3 E3].
  split; [assumption|]. rewrite E3. eapply mstep_silent; eauto.
Qed.

End Stable.

End MachineFacts.

(** * Cancellation *)

Section StopFacts.

Import PeriodicTask.

Variable inject : nat -> SendOutcome.

Lemma cancelled_setter f x : setter f -> cancelled x -> cancelled (f x).
Proof. intros Hf [H1 H2]. destruct Hf; split; simpl; auto. Qed.

Lemma cancelled_run r p x :
  thread x = Some p -> cancelled x -> cancelled (fst (_run r p x)).
Proof.
  intros _ [H1 H2]. unfold cancelled.
  destruct p; simpl; rewrite ?H1, ?H2; simpl; auto; destruct (bus x); simpl; auto;
    destruct (payload_ok (data x)); simpl; auto.
Qed.

Lemma stopped_setter f x : setter f -> stopped x -> stopped (f x).
Proof. intros Hf (H1 & H2 & H3). destruct Hf; repeat split; simpl; auto. Qed.

Lemma stopped_run r p x :
  thread x = Some p -> stopped x -> stopped (fst (_run r p x)).
Proof.
  intros Hp (H1 & H2 & H3). unfold is_alive in H3. rewrite Hp in H3.
  destruct p; try discriminate. simpl. unfold stopped, is_alive. rewrite Hp. auto.
Qed.

Lemma stopped_silent r p x :
  thread x = Some p -> stopped x ->
  filter (fun e => is_send e = true) (snd (_run r p x)) = [].
Proof.
  intros Hp (H1 & H2 & H3). unfold is_alive in H3. rewrite Hp in H3.
  destruct p; try discriminate. reflexivity.
Qed.

Lemma bound_setter b f x : setter f -> bus x = b -> bus (f x) = b.
Proof. intros Hf H. destruct Hf; simpl; auto. Qed.

Lemma bound_run b r p x : thread x = Some p -> bus x = b -> bus (fst (_run r p x)) = b.
Proof.
  intros _ <-. destruct p; simpl; auto.
  - destruct (running x); reflexivity.
  - destruct (bus x) eqn:E; [destruct (payload_ok (data x))|]; simpl; congruence.
  - destruct (_stop_event x); [|destruct (wait_raises (cycle_time x))]; reflexivity.
Qed.

Lemma unbound_silent r p x :
  thread x = Some p -> unbound x ->
  filter (fun e => is_send e = true) (snd (_run r p x)) = [].
Proof.
  unfold unbound. intros _ H. destruct p; simpl; try reflexivity.
  - destruct (running x); reflexivity.
  - rewrite H. reflexivity.
  - destruct (_stop_event x); [|destruct (wait_raises (cycle_time x))]; reflexivity.
Qed.

Lemma join_done fuel a m : alive a m = false -> join inject fuel a m = Some m.
Proof. intros H. destruct fuel; simpl; rewrite H; reflexivity. Qed.

Lemma join_step fuel a m :
  alive a m = true -> join inject (S fuel) a m = join inject fuel a (schedule inject a m).
Proof. intros H. simpl. rewrite H. reflexivity. Qed.

(** [join] returns only once the thread is not alive, and the caller
    sees nothing but steps of that worker. *)
Lemma join_spec fuel a m m' :
  join inject fuel a m = Some m' ->
  alive a m' = false /\ rtc (mstep inject) m m'.
Proof.
  revert m. induction fuel as [|n IH]; intros m; simpl.
  - destruct (alive a m) eqn:E; [discriminate|].
    intros [= <-]. split; [assumption | constructor].
  - destruct (alive a m) eqn:E.
    + intros H. destruct (IH _ H) as [H1 H2]. split; [assumption|].
      eapply rtc_l; [apply mstep_schedule | exact H2].
    + intros [= <-]. split; [assumption | constructor].
Qed.

Lemma alive_schedule a m x p :
  heap m !! a = Some x -> thread x = Some p ->
  alive a (schedule inject a m)
  = is_alive (fst (_run (inject (send_count (trace m))) p x)).
Proof.
  intros H Hp. destruct (schedule_at inject a m x p H Hp) as [H1 _].
  unfold alive. rewrite H1. reflexivity.
Qed.

(** Once cancellation is requested the loop ends within two steps of
    the worker: at most the body in progress, then the wait. *)
Lemma cancelled_two_steps a m :
  holds_at cancelled a m ->
  alive a (schedule inject a (schedule inject a m)) = false.
Proof.
  intros (x & Hx & H1 & H2).
  destruct (thread x) as [p|] eqn:Ep.
  - destruct (schedule_at inject a m x p Hx Ep) as [Hx' _].
    set (m1 := schedule inject a m) in *.
    set (x1 := fst (_run (inject (send_count (trace m))) p x)) in *.
    assert (Hq : thread x1 = Some Finished
                 \/ (thread x1 = Some AtSleep)
                 \/ (thread x1 = Some AtWait /\ _stop_event x1 = true)).
    { subst x1. destruct p; simpl; rewrite ?H1, ?H2; simpl; auto.
      destruct (bus x); simpl; auto. destruct (payload_ok (data x)); simpl; auto. }
    destruct Hq as [Hq | [Hq | [Hq Hs]]].
    + rewrite (schedule_finished inject a m1 x1 Hx' Hq).
      unfold alive, is_alive. rewrite Hx', Hq. reflexivity.
    + rewrite (alive_schedule a m1 x1 AtSleep Hx' Hq). reflexivity.
    + rewrite (alive_schedule a m1 x1 AtWait Hx' Hq). simpl. rewrite Hs. reflexivity.
  - rewrite (schedule_no_thread inject a m x Hx Ep).
    rewrite (schedule_no_thread inject a m x Hx Ep).
    unfold alive, is_alive. rewrite Hx, Ep. reflexivity.
Qed.

Lemma join_enough fuel a m :
  2 <= fuel -> holds_at cancelled a m -> is_Some (join inject fuel a m).
Proof.
  intros Hf Hc. destruct fuel as [|[|n]]; try lia.
  destruct (alive a m) eqn:E1; [|rewrite join_done by assumption; eauto].
  rewrite join_step by assumption.
  destruct (alive a (schedule inject a m)) eqn:E2; [|rewrite join_done by assumption; eauto].
  rewrite join_step by assumption.
  rewrite join_done; [eauto|]. apply cancelled_two_steps; assumption.
Qed.

(** The two writes of [stop]. *)
Lemma stop_writes a m x :
  heap m !! a = Some x ->
  heap (update a (set_stop_event true) (update a (set_running false) m)) !! a
  = Some (set_stop_event true (set_running false x)).
Proof.
  intros H. apply update_lookup_eq. apply update_lookup_eq. assumption.
Qed.

Lemma stop_absent fuel a m : heap m !! a = None -> stop inject fuel a m = Some m.
Proof.
  intros H. unfold stop, update. rewrite H. simpl. rewrite H. simpl. rewrite H. reflexivity.
Qed.

(** [stop] returns when the bound on [join] is at least two, after
    machine steps only, and leaves the task stopped. *)
Lemma stop_spec fuel a m :
  2 <= fuel ->
  exists m', stop inject fuel a m = Some m' /\
    rtc (mstep inject) m m' /\
    (forall x, heap m !! a = Some x -> holds_at stopped a m').
Proof.
  intros Hf. destruct (heap m !! a) as [x|] eqn:Hx.
  2:{ exists m. rewrite stop_absent by assumption.
      split; [reflexivity|]. split; [constructor | discriminate]. }
  unfold stop. rewrite (stop_writes a m x Hx).
  set (m2 := update a (set_stop_event true) (update a (set_running false) m)).
  assert (Hm2 : heap m2 !! a = Some (set_stop_event true (set_running false x)))
    by (apply stop_writes; assumption).
  assert (H02 : rtc (mstep inject) m m2).
  { eapply rtc_l; [apply mstep_update, setter_running|].
    eapply rtc_l; [apply mstep_update, setter_stop_event|]. constructor. }
  assert (Hc : holds_at cancelled a m2).
  { eexists. split; [exact Hm2|]. split; reflexivity. }
  cbn [thread set_stop_event set_running].
  destruct (thread x) as [p|] eqn:Ep.
  - destruct (join_enough fuel a m2 Hf Hc) as [m' Hj]. exists m'.
    split; [assumption|]. destruct (join_spec _ _ _ _ Hj) as [Ha Hs].
    split; [etrans; eassumption|].
    intros ? _.
    destruct (msteps_stable inject cancelled cancelled_setter cancelled_run a m2 m' Hs Hc)
      as (x' & Hx' & Hr & He).
    exists x'. split; [assumption|]. repeat split; try assumption.
    unfold alive in Ha. rewrite Hx' in Ha. exact Ha.
  - exists m2. split; [reflexivity|]. split; [assumption|].
    intros ? _. eexists. split; [exact Hm2|].
    repeat split. unfold is_alive. simpl. rewrite Ep. reflexivity.
Qed.

(** On a stopped task [stop] changes nothing, whatever the bound. *)
Lemma stop_stopped fuel a m :
  holds_at stopped a m -> stop inject fuel a m = Some m.
Proof.
  intros (x & Hx & H1 & H2 & H3).
  assert (E1 : update a (set_running false) m = m).
  { apply update_id. intros y Hy. rewrite Hx in Hy. injection Hy as <-.
    destruct x; simpl in *; subst; reflexivity. }
  assert (E2 : update a (set_stop_event true) m = m).
  { apply update_id. intros y Hy. rewrite Hx in Hy. injection Hy as <-.
    destruct x; simpl in *; subst; reflexivity. }
  unfold stop. rewrite E1, E2, Hx.
  destruct (thread x) eqn:Ep; [|reflexivity].
  apply join_done. unfold alive. rewrite Hx. exact H3.
Qed.

End StopFacts.

(** * The application changes the machine only by machine steps *)

Section AppFacts.

Import MultiCanTransmitterApp.

Variable inject : nat -> SendOutcome.
Variable fuel : nat.

Lemma log_machine msg s : machine (log msg s) = machine s.
Proof. reflexivity. Qed.

Lemma log_bus msg s : bus (log msg s) = bus s.
Proof. reflexivity. Qed.

Lemma log_periodic_tasks msg s : periodic_tasks (log msg s) = periodic_tasks s.
Proof. reflexivity. Qed.

Lemma log_message_table msg s : message_table (log msg s) = message_table s.
Proof. reflexivity. Qed.

Lemma setup_can_bus_machine cfg drv s :
  machine (snd (setup_can_bus cfg drv s)) = machine s.
Proof.
  unfold setup_can_bus. destruct (bus s); [reflexivity|].
  destruct (String.eqb _ _); [reflexivity|].
  destruct (String.eqb _ _); [reflexivity|].
  destruct (drv _ _ _); reflexivity.
Qed.

Lemma setup_can_bus_periodic_tasks cfg drv s :
  periodic_tasks (snd (setup_can_bus cfg drv s)) = periodic_tasks s.
Proof.
  unfold setup_can_bus. destruct (bus s); [reflexivity|].
  destruct (String.eqb _ _); [reflexivity|].
  destruct (String.eqb _ _); [reflexivity|].
  destruct (drv _ _ _); reflexivity.
Qed.

Lemma spawn_machine can_id data ext ct s :
  machine (spawn can_id data ext ct s)
  = PeriodicTask.update (length (PeriodicTask.heap (machine s))) PeriodicTask.start
      (snd (PeriodicTask.alloc (PeriodicTask.__init__ (bus s) can_id data ext ct) (machine s))).
Proof. reflexivity. Qed.

Lemma spawn_msteps can_id data ext ct s :
  rtc (mstep inject) (machine s) (machine (spawn can_id data ext ct s)).
Proof. rewrite spawn_machine. apply rtc_once, mstep_spawn. Qed.

Lemma add_message_msteps entry s :
  rtc (mstep inject) (machine s) (machine (add_message entry s)).
Proof.
  destruct entry as [can_id data cycle_ms id_type | e]; [|constructor].
  unfold add_message. destruct (find_task can_id _) as [a|].
  - simpl.
    eapply rtc_l; [apply mstep_update, setter_data|].
    eapply rtc_l; [apply mstep_update, setter_cycle_time|].
    eapply rtc_l; [apply mstep_update, setter_is_extended|]. constructor.
  - apply (spawn_msteps can_id data _ _ (log _ s)).
Qed.

Lemma start_rows_msteps rows s :
  rtc (mstep inject) (machine s) (machine (start_rows rows s)).
Proof.
  revert s. induction rows as [|r rows IH]; intros s; [constructor|].
  simpl. etrans; [|apply IH]. unfold start_row.
  destruct (int_of (row_cycle_time r)); rewrite log_machine;
    [apply spawn_msteps | constructor].
Qed.

Lemma start_cyclic_msteps cfg drv s :
  rtc (mstep inject) (machine s) (machine (start_cyclic cfg drv s)).
Proof.
  assert (R : forall s0, rtc (mstep inject) (machine s0) (machine (rebuild s0))).
  { intros s0. apply (start_rows_msteps _ (set_periodic_tasks [] s0)). }
  unfold start_cyclic. destruct (bus s); [apply R|].
  pose proof (setup_can_bus_machine cfg drv (log NotInitializedAttempting s)) as E.
  destruct (setup_can_bus cfg drv _) as [[] s1]; simpl in E.
  - rewrite <- E. apply R.
  - rewrite log_machine, E. constructor.
Qed.

Lemma stop_msteps a m m' :
  PeriodicTask.stop inject fuel a m = Some m' -> rtc (mstep inject) m m'.
Proof.
  unfold PeriodicTask.stop. intros H.
  eapply rtc_l; [apply mstep_update, setter_running|].
  eapply rtc_l; [apply mstep_update, setter_stop_event|].
  destruct (PeriodicTask.heap _ !! a) as [x|].
  - destruct (PeriodicTask.thread x).
    + apply join_spec in H. apply H.
    + injection H as <-. constructor.
  - injection H as <-. constructor.
Qed.

Lemma stop_each_msteps tasks m m' :
  stop_each inject fuel tasks m = Some m' -> rtc (mstep inject) m m'.
Proof.
  revert m. induction tasks as [|a tasks IH]; intros m; simpl.
  - intros [= <-]. constructor.
  - destruct (PeriodicTask.stop inject fuel a m) as [m1|] eqn:E; [|discriminate].
    simpl. intros H. etrans; [eapply stop_msteps; eassumption | apply IH; assumption].
Qed.

Lemma stop_cyclic_msteps s s' :
  stop_cyclic inject fuel s = Some s' -> rtc (mstep inject) (machine s) (machine s').
Proof.
  unfold stop_cyclic.
  destruct (stop_each inject fuel _ _) as [m|] eqn:E; [|discriminate].
  simpl. intros [= <-]. simpl. eapply stop_each_msteps; eassumption.
Qed.

Lemma remove_item_msteps iid s s' :
  remove_item inject fuel iid s = Some s' -> rtc (mstep inject) (machine s) (machine s').
Proof.
  unfold remove_item. destruct (List.find _ _) as [[i r]|].
  - destruct (find_task _ s) as [a|].
    + destruct (PeriodicTask.stop inject fuel a (machine s)) as [m|] eqn:E; [|discriminate].
      simpl. intros [= <-]. simpl. eapply stop_msteps; eassumption.
    + simpl. intros [= <-]. constructor.
  - intros [= <-]. constructor.
Qed.

Lemma remove_items_msteps sel s s' :
  remove_items inject fuel sel s = Some s' -> rtc (mstep inject) (machine s) (machine s').
Proof.
  revert s. induction sel as [|iid sel IH]; intros s; simpl.
  - intros [= <-]. constructor.
  - destruct (remove_item inject fuel iid s) as [s1|] eqn:E; [|discriminate].
    simpl. intros H. etrans; [eapply remove_item_msteps; eassumption | apply IH; assumption].
Qed.

Lemma remove_message_msteps sel s s' :
  remove_message inject fuel sel s = Some s' -> rtc (mstep inject) (machine s) (machine s').
Proof.
  unfold remove_message. destruct sel as [|iid sel].
  - intros [= <-]. constructor.
  - destruct (remove_items inject fuel (iid :: sel) s) as [s1|] eqn:E; [|discriminate].
    simpl. intros [= <-]. apply remove_items_msteps in E.
    destruct (periodic_tasks s1); exact E.
Qed.

Lemma reset_msteps s s' :
  reset inject fuel s = Some s' -> rtc (mstep inject) (machine s) (machine s').
Proof.
  unfold reset.
  destruct (stop_each inject fuel _ _) as [m|] eqn:E; [|discriminate].
  simpl. intros [= <-]. apply stop_each_msteps in E.
  etrans; [exact E|]. destruct (bus s); simpl.
  - apply rtc_once, mstep_shutdown.
  - constructor.
Qed.

Lemma on_closing_msteps s s' :
  on_closing inject fuel s = Some s' -> rtc (mstep inject) (machine s) (machine s').
Proof.
  unfold on_closing. rewrite log_periodic_tasks, log_machine.
  destruct (stop_each inject fuel _ _) as [m|] eqn:E; [|discriminate].
  simpl. intros [= <-]. simpl. eapply stop_each_msteps; eassumption.
Qed.

Lemma exec_msteps o s s' :
  exec inject fuel o s = Some s' -> rtc (mstep inject) (machine s) (machine s').
Proof.
  unfold exec. destruct (closed s); [intros [= <-]; constructor|].
  destruct o; simpl.
  - intros [= <-]. apply add_message_msteps.
  - apply remove_message_msteps.
  - destruct (start_button s); intros [= <-]; [apply start_cyclic_msteps | constructor].
  - destruct (stop_button s); [apply stop_cyclic_msteps | intros [= <-]; constructor].
  - apply reset_msteps.
  - apply on_closing_msteps.
  - intros [= <-]. simpl. apply rtc_once, mstep_schedule.
  - intros [= <-]. constructor.
Qed.

Lemma run_msteps ops s s' :
  run inject fuel ops s = Some s' -> rtc (mstep inject) (machine s) (machine s').
Proof.
  revert s. induction ops as [|o ops IH]; intros s; simpl.
  - intros [= <-]. constructor.
  - destruct (exec inject fuel o s) as [s1|] eqn:E; [|discriminate].
    simpl. intros H. etrans; [eapply exec_msteps; eassumption | apply IH; assumption].
Qed.

End AppFacts.

(** * Stopping one task, stopping all *)

Section StopAll.

Import MultiCanTransmitterApp.

Variable inject : nat -> SendOutcome.
Variable fuel : nat.

(** Tasks are never deallocated. *)
Lemma msteps_allocated a m m' :
  rtc (mstep inject) m m' ->
  is_Some (PeriodicTask.heap m !! a) -> is_Some (PeriodicTask.heap m' !! a).
Proof.
  intros H [x Hx].
  destruct (msteps_stable inject (fun _ => True) (fun _ _ _ _ => I) (fun _ _ _ _ _ => I) a m m' H)
    as (x' & Hx' & _); [exists x; auto | eauto].
Qed.

Lemma msteps_stopped a m m' :
  rtc (mstep inject) m m' -> holds_at stopped a m ->
  holds_at stopped a m' /\
  sends_of a (PeriodicTask.trace m') = sends_of a (PeriodicTask.trace m).
Proof.
  apply (msteps_silent inject stopped stopped_setter stopped_run stopped_silent).
Qed.

Lemma stop_each_spec tasks m :
  2 <= fuel ->
  exists m', stop_each inject fuel tasks m = Some m' /\
    rtc (mstep inject) m m' /\
    (forall a, a ∈ tasks -> is_Some (PeriodicTask.heap m !! a) -> holds_at stopped a m').
Proof.
  intros Hf. revert m. induction tasks as [|a tasks IH]; intros m.
  - exists m. split; [reflexivity|]. split; [constructor|].
    intros a Ha. inversion Ha.
  - destruct (stop_spec inject fuel a m Hf) as (m1 & E1 & S1 & P1).
    destruct (IH m1) as (m2 & E2 & S2 & P2).
    exists m2. simpl. rewrite E1. simpl. split; [exact E2|].
    split; [etrans; eassumption|].
    intros b Hb [x Hx]. apply elem_of_cons in Hb as [->|Hb].
    + apply (msteps_stopped a m1 m2 S2). eapply P1; eassumption.
    + apply P2; [assumption|]. eapply msteps_allocated; [exact S1 | eauto].
Qed.

(** Worker steps leave no event of the main thread. *)
Lemma schedule_main_events a m :
  events_of None (PeriodicTask.trace (PeriodicTask.schedule inject a m))
  = events_of None (PeriodicTask.trace m).
Proof.
  unfold PeriodicTask.schedule. destruct (PeriodicTask.heap m !! a) as [x|]; [|reflexivity].
  destruct (PeriodicTask.thread x) as [p|]; [|reflexivity].
  destruct (PeriodicTask._run _ p x) as [x' evs]. simpl.
  rewrite events_of_app, events_of_tagged_ne by discriminate. apply app_nil_r.
Qed.

Lemma join_main_events n a m m' :
  PeriodicTask.join inject n a m = Some m' ->
  events_of None (PeriodicTask.trace m') = events_of None (PeriodicTask.trace m).
Proof.
  revert m. induction n as [|n IH]; intros m; simpl.
  - destruct (PeriodicTask.alive a m); [discriminate | intros [= <-]; reflexivity].
  - destruct (PeriodicTask.alive a m).
    + intros H. rewrite (IH _ H). apply schedule_main_events.
    + intros [= <-]. reflexivity.
Qed.

Lemma stop_main_events a m m' :
  PeriodicTask.stop inject fuel a m = Some m' ->
  events_of None (PeriodicTask.trace m') = events_of None (PeriodicTask.trace m).
Proof.
  unfold PeriodicTask.stop. intros H.
  assert (E : events_of None (PeriodicTask.trace m')
              = events_of None (PeriodicTask.trace
                  (PeriodicTask.update a (PeriodicTask.set_stop_event true)
                     (PeriodicTask.update a (PeriodicTask.set_running false) m)))).
  { destruct (PeriodicTask.heap _ !! a) as [x|].
    - destruct (PeriodicTask.thread x).
      + eapply join_main_events; eassumption.
      + injection H as <-. reflexivity.
    - injection H as <-. reflexivity. }
  rewrite E, !update_trace. reflexivity.
Qed.

Lemma stop_each_main_events tasks m m' :
  stop_each inject fuel tasks m = Some m' ->
  events_of None (PeriodicTask.trace m') = events_of None (PeriodicTask.trace m).
Proof.
  revert m. induction tasks as [|a tasks IH]; intros m; simpl.
  - intros [= <-]. reflexivity.
  - destruct (PeriodicTask.stop inject fuel a m) as [m1|] eqn:E; [|discriminate].
    simpl. intros H. rewrite (IH _ H). eapply stop_main_events; eassumption.
Qed.

End StopAll.

(** * The claims *)

(** C4.  Once [stop] has returned for a transmitter, that transmitter
    performs no further send.  [stop] does return when [join] is given
    at least two steps of the worker; on return the [running] flag is
    cleared, the cancellation event is set and the thread has exited;
    and whatever the operator and the scheduler do afterwards, the
    frames this transmitter has handed to the bus stay the same. *)
Theorem stop_then_no_further_send
    (inject : nat -> SendOutcome) (fuel : nat) (a : nat)
    (s : MultiCanTransmitterApp.t) (x : PeriodicTask.t) :
  2 <= fuel ->
  PeriodicTask.heap (MultiCanTransmitterApp.machine s) !! a = Some x ->
  exists m1,
    PeriodicTask.stop inject fuel a (MultiCanTransmitterApp.machine s) = Some m1 /\
    holds_at stopped a m1 /\
    forall fuel' ops s1 s2,
      MultiCanTransmitterApp.machine s1 = m1 ->
      MultiCanTransmitterApp.run inject fuel' ops s1 = Some s2 ->
      holds_at stopped a (MultiCanTransmitterApp.machine s2) /\
      sends_of a (PeriodicTask.trace (MultiCanTransmitterApp.machine s2))
      = sends_of a (PeriodicTask.trace m1).
Proof.
  intros Hf Hx.
  destruct (stop_spec inject fuel a (MultiCanTransmitterApp.machine s) Hf)
    as (m1 & E & _ & P).
  exists m1. split; [exact E|]. split; [eapply P; eassumption|].
  intros fuel' ops s1 s2 <- Hrun.
  apply (msteps_stopped inject a _ _ (run_msteps inject fuel' ops s1 s2 Hrun)).
  eapply P; eassumption.
Qed.

Lemma stop_then_no_further_send_witness :
  exists m1,
    PeriodicTask.stop demo_ok 2 1 (MultiCanTransmitterApp.machine demo_started) = Some m1 /\
    holds_at stopped 1 m1 /\
    forall fuel' ops s1 s2,
      MultiCanTransmitterApp.machine s1 = m1 ->
      MultiCanTransmitterApp.run demo_ok fuel' ops s1 = Some s2 ->
      holds_at stopped 1 (MultiCanTransmitterApp.machine s2) /\
      sends_of 1 (PeriodicTask.trace (MultiCanTransmitterApp.machine s2))
      = sends_of 1 (PeriodicTask.trace m1).
Proof.
  eapply (stop_then_no_further_send demo_ok 2 1 demo_started).
  - lia.
  - reflexivity.
Defined.

(** C8.  [stop] is idempotent.  For every task address, every machine
    state (the task running, already stopped, or never started) and
    every N > 1, N calls of [stop] in a row return, and end in the
    state that a single call ends in; no call fails and none waits for
    more than two steps of the worker. *)
Theorem stop_idempotent
    (inject : nat -> SendOutcome) (fuel n a : nat) (m : PeriodicTask.Machine) :
  2 <= fuel -> 1 < n ->
  exists m1,
    PeriodicTask.stop inject fuel a m = Some m1 /\
    stop_n inject fuel n a m = Some m1 /\
    PeriodicTask.stop inject fuel a m1 = Some m1.
Proof.
  intros Hf Hn.
  destruct (stop_spec inject fuel a m Hf) as (m1 & E & S & P).
  assert (Hagain : PeriodicTask.stop inject fuel a m1 = Some m1).
  { destruct (PeriodicTask.heap m !! a) as [x|] eqn:Hx.
    - apply stop_stopped. eapply P; reflexivity.
    - rewrite stop_absent in E by assumption. injection E as <-.
      apply stop_absent; assumption. }
  assert (Hk : forall k, stop_n inject fuel k a m1 = Some m1).
  { induction k as [|k IH]; [reflexivity|]. simpl. rewrite Hagain. simpl. exact IH. }
  exists m1. split; [exact E|]. split; [|exact Hagain].
  destruct n as [|k]; [lia|]. simpl. rewrite E. simpl. apply Hk.
Qed.

Lemma stop_idempotent_witness :
  exists m1,
    PeriodicTask.stop demo_ok 2 1 (MultiCanTransmitterApp.machine demo_started) = Some m1 /\
    stop_n demo_ok 2 3 1 (MultiCanTransmitterApp.machine demo_started) = Some m1 /\
    PeriodicTask.stop demo_ok 2 1 m1 = Some m1.
Proof.
  apply (stop_idempotent demo_ok 2 3 1 (MultiCanTransmitterApp.machine demo_started)); lia.
Defined.

(** C9.  [stop_cyclic] returns; it has stopped every transmitter of
    the collection (each by its own blocking [stop]) and cleared the
    collection; the bus handle is the one held before and the main
    thread has done nothing to it (no shutdown); on an empty collection
    no worker is waited for: the machine is untouched. *)
Theorem stop_cyclic_stops_all
    (inject : nat -> SendOutcome) (fuel : nat) (s : MultiCanTransmitterApp.t) :
  2 <= fuel ->
  exists s',
    MultiCanTransmitterApp.stop_cyclic inject fuel s = Some s' /\
    MultiCanTransmitterApp.periodic_tasks s' = [] /\
    MultiCanTransmitterApp.bus s' = MultiCanTransmitterApp.bus s /\
    events_of None (PeriodicTask.trace (MultiCanTransmitterApp.machine s'))
    = events_of None (PeriodicTask.trace (MultiCanTransmitterApp.machine s)) /\
    (forall a, a ∈ MultiCanTransmitterApp.periodic_tasks s ->
       is_Some (PeriodicTask.heap (MultiCanTransmitterApp.machine s) !! a) ->
       holds_at stopped a (MultiCanTransmitterApp.machine s')) /\
    (MultiCanTransmitterApp.periodic_tasks s = [] ->
       MultiCanTransmitterApp.machine s' = MultiCanTransmitterApp.machine s).
Proof.
  intros Hf.
  destruct (stop_each_spec inject fuel (MultiCanTransmitterApp.periodic_tasks s)
              (MultiCanTransmitterApp.machine s) Hf) as (m' & E & S & P).
  unfold MultiCanTransmitterApp.stop_cyclic. rewrite E. simpl.
  eexists. split; [reflexivity|]. simpl.
  split; [reflexivity|]. split; [reflexivity|].
  split; [eapply stop_each_main_events; eassumption|].
  split; [exact P|].
  intros Hnil. rewrite Hnil in E. simpl in E. congruence.
Qed.

Lemma stop_cyclic_stops_all_witness :
  exists s',
    MultiCanTransmitterApp.stop_cyclic demo_ok 2 demo_started = Some s' /\
    MultiCanTransmitterApp.periodic_tasks s' = [] /\
    MultiCanTransmitterApp.bus s' = MultiCanTransmitterApp.bus demo_started /\
    events_of None (PeriodicTask.trace (MultiCanTransmitterApp.machine s'))
    = events_of None (PeriodicTask.trace (MultiCanTransmitterApp.machine demo_started)) /\
    (forall a, a ∈ MultiCanTransmitterApp.periodic_tasks demo_started ->
       is_Some (PeriodicTask.heap (MultiCanTransmitterApp.machine demo_started) !! a) ->
       holds_at stopped a (MultiCanTransmitterApp.machine s')) /\
    (MultiCanTransmitterApp.periodic_tasks demo_started = [] ->
       MultiCanTransmitterApp.machine s' = MultiCanTransmitterApp.machine demo_started).
Proof.
  apply (stop_cyclic_stops_all demo_ok 2 demo_started). lia.
Defined.

(** * What [add_message] does to the machine *)

Section Upsert.

Import MultiCanTransmitterApp.

Lemma spawn_heap can_id data ext ct s :
  PeriodicTask.heap (machine (spawn can_id data ext ct s))
  = PeriodicTask.heap (machine s)
    ++ [PeriodicTask.mk (bus s) can_id data ext ct true (Some AtWhile) false].
Proof.
  rewrite spawn_machine. unfold PeriodicTask.update, PeriodicTask.alloc. simpl.
  rewrite list_lookup_middle by reflexivity. simpl.
  rewrite insert_app_r_alt by lia. rewrite Nat.sub_diag. reflexivity.
Qed.

Lemma spawn_trace can_id data ext ct s :
  PeriodicTask.trace (machine (spawn can_id data ext ct s)) = PeriodicTask.trace (machine s).
Proof. rewrite spawn_machine. rewrite update_trace. reflexivity. Qed.

Lemma spawn_periodic_tasks can_id data ext ct s :
  periodic_tasks (spawn can_id data ext ct s)
  = periodic_tasks s ++ [length (PeriodicTask.heap (machine s))].
Proof. reflexivity. Qed.

Lemma spawn_bus can_id data ext ct s : bus (spawn can_id data ext ct s) = bus s.
Proof. reflexivity. Qed.

Lemma update_eq a f m x :
  PeriodicTask.heap m !! a = Some x ->
  PeriodicTask.update a f m
  = PeriodicTask.mkMachine (<[a := f x]> (PeriodicTask.heap m)) (PeriodicTask.trace m).
Proof. intros H. unfold PeriodicTask.update. rewrite H. reflexivity. Qed.

(** The update path: three writes to the task found, nothing else. *)
Lemma add_message_update can_id data cycle_ms id_type s a x :
  find_task can_id s = Some a ->
  PeriodicTask.heap (machine s) !! a = Some x ->
  let s' := add_message (Parsed can_id data cycle_ms id_type) s in
  PeriodicTask.heap (machine s')
  = <[a := PeriodicTask.mk (PeriodicTask.bus x) (PeriodicTask.can_id x) data
             (String.eqb id_type "Extended") (fdiv cycle_ms 1000)
             (PeriodicTask.running x) (PeriodicTask.thread x)
             (PeriodicTask._stop_event x)]> (PeriodicTask.heap (machine s)) /\
  PeriodicTask.trace (machine s') = PeriodicTask.trace (machine s) /\
  periodic_tasks s' = periodic_tasks s /\
  bus s' = bus s.
Proof.
  intros Hf Hx. unfold add_message.
  change (find_task can_id (log _ s)) with (find_task can_id s). rewrite Hf. simpl.
  assert (Hlt : a < length (PeriodicTask.heap (machine s)))
    by (eapply lookup_lt_Some; eassumption).
  rewrite (update_eq a _ (machine s) x Hx).
  erewrite (update_eq a (PeriodicTask.set_cycle_time _))
    by (simpl; apply list_lookup_insert_eq; assumption).
  erewrite (update_eq a (PeriodicTask.set_is_extended _))
    by (simpl; apply list_lookup_insert_eq; rewrite length_insert; assumption).
  simpl. rewrite !list_insert_insert_eq. auto.
Qed.

(** The creation path: one new task, bound to the bus the application
    holds at that moment, started, and appended to the registry. *)
Lemma add_message_create can_id data cycle_ms id_type s :
  find_task can_id s = None ->
  let s' := add_message (Parsed can_id data cycle_ms id_type) s in
  PeriodicTask.heap (machine s')
  = PeriodicTask.heap (machine s)
    ++ [PeriodicTask.mk (bus s) can_id data (String.eqb id_type "Extended")
          (fdiv cycle_ms 1000) true (Some AtWhile) false] /\
  PeriodicTask.trace (machine s') = PeriodicTask.trace (machine s) /\
  periodic_tasks s' = periodic_tasks s ++ [length (PeriodicTask.heap (machine s))] /\
  bus s' = bus s.
Proof.
  intros Hf. unfold add_message.
  change (find_task can_id (log _ s)) with (find_task can_id s). rewrite Hf.
  cbv zeta.
  split; [|split; [|split]].
  - change (PeriodicTask.heap (machine (insert_row ?r (log ?m ?t))))
      with (PeriodicTask.heap (machine t)).
    rewrite spawn_heap. reflexivity.
  - change (PeriodicTask.trace (machine (insert_row ?r (log ?m ?t))))
      with (PeriodicTask.trace (machine t)).
    rewrite spawn_trace. reflexivity.
  - reflexivity.
  - reflexivity.
Qed.

End Upsert.

(** C10.  A transmitter's bus reference is fixed at construction.
    (1) Whatever the operator and the scheduler do, the task at an
    address keeps the bus reference it has, and a task whose reference
    is [None] never hands a frame to the bus - a later successful open
    is among the operations covered.  (2) The update path of
    [add_message] rewrites the payload, the cycle time and the extended
    flag and nothing else.  (3) A transmitter that [add_message]
    creates while the application holds no bus has the reference
    [None]. *)
Theorem bus_reference_is_fixed
    (inject : nat -> SendOutcome) (fuel : nat) (s : MultiCanTransmitterApp.t) :
  (forall ops s' a x,
     PeriodicTask.heap (MultiCanTransmitterApp.machine s) !! a = Some x ->
     MultiCanTransmitterApp.run inject fuel ops s = Some s' ->
     exists x',
       PeriodicTask.heap (MultiCanTransmitterApp.machine s') !! a = Some x' /\
       PeriodicTask.bus x' = PeriodicTask.bus x /\
       (PeriodicTask.bus x = None ->
        sends_of a (PeriodicTask.trace (MultiCanTransmitterApp.machine s'))
        = sends_of a (PeriodicTask.trace (MultiCanTransmitterApp.machine s)))) /\
  (forall can_id data cycle_ms id_type a x,
     MultiCanTransmitterApp.find_task can_id s = Some a ->
     PeriodicTask.heap (MultiCanTransmitterApp.machine s) !! a = Some x ->
     PeriodicTask.heap (MultiCanTransmitterApp.machine
        (MultiCanTransmitterApp.add_message (Parsed can_id data cycle_ms id_type) s)) !! a
     = Some (PeriodicTask.mk (PeriodicTask.bus x) (PeriodicTask.can_id x) data
               (String.eqb id_type "Extended") (fdiv cycle_ms 1000)
               (PeriodicTask.running x) (PeriodicTask.thread x)
               (PeriodicTask._stop_event x))) /\
  (forall can_id data cycle_ms id_type,
     MultiCanTransmitterApp.bus s = None ->
     MultiCanTransmitterApp.find_task can_id s = None ->
     exists x,
       PeriodicTask.heap (MultiCanTransmitterApp.machine
          (MultiCanTransmitterApp.add_message (Parsed can_id data cycle_ms id_type) s))
         !! length (PeriodicTask.heap (MultiCanTransmitterApp.machine s)) = Some x /\
       PeriodicTask.bus x = None /\ PeriodicTask.can_id x = can_id /\
       PeriodicTask.is_alive x = true).
Proof.
  split; [|split].
  - intros ops s' a x Hx Hrun.
    pose proof (run_msteps inject fuel ops s s' Hrun) as Hsteps.
    destruct (msteps_stable inject (fun y => PeriodicTask.bus y = PeriodicTask.bus x)
                (bound_setter (PeriodicTask.bus x)) (bound_run (PeriodicTask.bus x))
                a _ _ Hsteps) as (x' & Hx' & Hb); [exists x; auto|].
    exists x'. split; [assumption|]. split; [assumption|].
    intros Hnone.
    apply (msteps_silent inject unbound (bound_setter None) (bound_run None)
             unbound_silent a _ _ Hsteps).
    exists x. auto.
  - intros can_id data cycle_ms id_type a x Hf Hx.
    destruct (add_message_update can_id data cycle_ms id_type s a x Hf Hx) as (E & _).
    rewrite E. apply list_lookup_insert_eq. eapply lookup_lt_Some; eassumption.
  - intros can_id data cycle_ms id_type Hb Hf.
    destruct (add_message_create can_id data cycle_ms id_type s Hf) as (E & _).
    rewrite E, Hb. eexists. split; [apply list_lookup_middle; reflexivity|].
    repeat split.
Qed.

Lemma bus_reference_is_fixed_witness :
  exists x',
    PeriodicTask.heap (MultiCanTransmitterApp.machine demo_started) !! 0 = Some x' /\
    PeriodicTask.bus x' = None /\
    sends_of 0 (PeriodicTask.trace (MultiCanTransmitterApp.machine demo_started)) = [].
Proof.
  destruct (proj1 (bus_reference_is_fixed demo_ok 2 demo_added)
              [MultiCanTransmitterApp.OpStart demo_cfg demo_drv] demo_started 0
              (PeriodicTask.mk None 256 [1%Z; 2%Z] false (fdiv (Finite 100) 1000) true (Some AtWhile) false)
              eq_refl eq_refl) as (x' & H1 & H2 & H3).
  exists x'. split; [exact H1|]. split; [exact H2|]. exact (H3 eq_refl).
Defined.

(** * A tick without a bus, and what a tick reports *)

(** C2, counterexample.  The claim says that a transmitter without a
    bus retries and does not terminate, so that a later open lets it
    send.  Task 0 of [demo_added] was created while no bus was open.
    Its first turn prints the line and sleeps one second; then its
    thread is not alive and further scheduling changes nothing.  After
    "Start Cyclic Transmission" has opened bus 7, task 0 still holds
    no bus, is still not alive and has sent nothing. *)
Lemma retry_without_bus_counterexample :
  let m3 := Nat.iter 3 (PeriodicTask.schedule demo_ok 0)
              (MultiCanTransmitterApp.machine demo_added) in
  PeriodicTask.trace m3 = [(Some 0, EPrint BusNotInitialized); (Some 0, ESleep 1)] /\
  PeriodicTask.alive 0 m3 = false /\
  PeriodicTask.schedule demo_ok 0 m3 = m3 /\
  let s := MultiCanTransmitterApp.start_cyclic demo_cfg demo_drv
             (MultiCanTransmitterApp.set_machine m3 demo_added) in
  let m := Nat.iter 9 (PeriodicTask.schedule demo_ok 0)
             (MultiCanTransmitterApp.machine s) in
  MultiCanTransmitterApp.bus s = Some 7 /\
  PeriodicTask.bus <$> (PeriodicTask.heap m !! 0) = Some None /\
  PeriodicTask.alive 0 m = false /\
  sends_of 0 (PeriodicTask.trace m) = [].
Proof. vm_compute. repeat split. Qed.

(** C2, amended.  For a transmitter that is at its tick (the test of
    [running] has passed) and whose bus reference is [None]: the tick
    prints "CAN bus is not initialized!" and then waits one second, and
    hands nothing to the bus; and whatever happens afterwards - a
    successful open included - its bus reference stays [None] and it
    sends nothing. *)
Theorem tick_without_bus
    (inject : nat -> SendOutcome) (fuel : nat) (a : nat)
    (s : MultiCanTransmitterApp.t) (x : PeriodicTask.t) :
  PeriodicTask.heap (MultiCanTransmitterApp.machine s) !! a = Some x ->
  PeriodicTask.thread x = Some AtBody ->
  PeriodicTask.bus x = None ->
  let m := MultiCanTransmitterApp.machine s in
  PeriodicTask.trace (PeriodicTask.schedule inject a (PeriodicTask.schedule inject a m))
  = PeriodicTask.trace m ++ [(Some a, EPrint BusNotInitialized); (Some a, ESleep 1)] /\
  forall ops s',
    MultiCanTransmitterApp.run inject fuel ops s = Some s' ->
    holds_at unbound a (MultiCanTransmitterApp.machine s') /\
    sends_of a (PeriodicTask.trace (MultiCanTransmitterApp.machine s'))
    = sends_of a (PeriodicTask.trace m).
Proof.
  intros Hx Hp Hb m. split.
  - destruct (schedule_at inject a m x AtBody Hx Hp) as [H1 H2].
    simpl in H1, H2. rewrite Hb in H1, H2. simpl in H1, H2.
    destruct (schedule_at inject a _ _ AtSleep H1 eq_refl) as [_ H4].
    rewrite H4, H2. simpl. rewrite <- app_assoc. reflexivity.
  - intros ops s' Hrun.
    apply (msteps_silent inject unbound (bound_setter None) (bound_run None)
             unbound_silent a _ _ (run_msteps inject fuel ops s s' Hrun)).
    exists x. auto.
Qed.

Lemma tick_without_bus_witness :
  let s := MultiCanTransmitterApp.set_machine
             (PeriodicTask.schedule demo_ok 0 (MultiCanTransmitterApp.machine demo_added))
             demo_added in
  let m := MultiCanTransmitterApp.machine s in
  PeriodicTask.trace (PeriodicTask.schedule demo_ok 0 (PeriodicTask.schedule demo_ok 0 m))
  = PeriodicTask.trace m ++ [(Some 0, EPrint BusNotInitialized); (Some 0, ESleep 1)] /\
  forall ops s',
    MultiCanTransmitterApp.run demo_ok 2 ops s = Some s' ->
    holds_at unbound 0 (MultiCanTransmitterApp.machine s') /\
    sends_of 0 (PeriodicTask.trace (MultiCanTransmitterApp.machine s'))
    = sends_of 0 (PeriodicTask.trace m).
Proof.
  eapply (tick_without_bus demo_ok 2 0); reflexivity.
Defined.

(** C7, counterexample.  Task 1 of [demo_started] is bound to bus 7.
    Its first tick hands one frame to the bus, the send succeeds, and
    nothing is logged: the worker has printed no line and the log of
    the application is what it was. *)
Lemma log_per_send_counterexample :
  let m := Nat.iter 2 (PeriodicTask.schedule demo_ok 1)
             (MultiCanTransmitterApp.machine demo_started) in
  sends_of 1 (PeriodicTask.trace m) = [ESend 7 (mkMessage 256 [1%Z; 2%Z] false) Sent] /\
  length (printed (events_of (Some 1) (PeriodicTask.trace m))) <> 1 /\
  (MultiCanTransmitterApp.log_text <$>
     MultiCanTransmitterApp.run demo_ok 2
       [MultiCanTransmitterApp.OpWorker 1; MultiCanTransmitterApp.OpWorker 1] demo_started)
  = Some (MultiCanTransmitterApp.log_text demo_started).
Proof. vm_compute. repeat split. discriminate. Qed.

(** C7, amended.  A tick of a transmitter that holds a bus and whose
    payload is made of bytes hands one frame to [bus.send] (for another
    payload [can.Message] raises before the send, and while the
    application has been closed no worker runs).  If the send succeeds
    nothing is logged.  If it fails exactly one line is written to the
    console; the line carries the text of the error and nothing else -
    no timestamp and no identifier.  The log of the application is not
    written by a transmitter. *)
Theorem send_attempt_report
    (inject : nat -> SendOutcome) (fuel : nat) (a : nat)
    (s s' : MultiCanTransmitterApp.t) (x : PeriodicTask.t) (b : Bus) :
  PeriodicTask.heap (MultiCanTransmitterApp.machine s) !! a = Some x ->
  PeriodicTask.thread x = Some AtBody ->
  PeriodicTask.bus x = Some b ->
  payload_ok (PeriodicTask.data x) = true ->
  MultiCanTransmitterApp.closed s = false ->
  MultiCanTransmitterApp.exec inject fuel (MultiCanTransmitterApp.OpWorker a) s = Some s' ->
  let tr := PeriodicTask.trace (MultiCanTransmitterApp.machine s) in
  let r := inject (send_count tr) in
  PeriodicTask.trace (MultiCanTransmitterApp.machine s')
  = tr ++ (Some a, ESend b (PeriodicTask.message x) r)
       :: match r with
          | Sent => []
          | CanError e => [(Some a, EPrint (TransmissionError e))]
          | OtherError e => [(Some a, EPrint (UnexpectedError e))]
          end /\
  MultiCanTransmitterApp.log_text s' = MultiCanTransmitterApp.log_text s.
Proof.
  intros Hx Hp Hb Hok Hc Hexec tr r. unfold MultiCanTransmitterApp.exec in Hexec.
  rewrite Hc in Hexec. injection Hexec as <-. simpl.
  split; [|reflexivity].
  destruct (schedule_at inject a _ x AtBody Hx Hp) as [_ H2].
  rewrite H2. simpl. rewrite Hb, Hok. simpl. fold tr. fold r. destruct r; reflexivity.
Qed.

Lemma send_attempt_report_witness :
  let s := MultiCanTransmitterApp.set_machine
             (PeriodicTask.schedule every_third 1 (MultiCanTransmitterApp.machine demo_started))
             demo_started in
  let s' := MultiCanTransmitterApp.set_machine
             (PeriodicTask.schedule every_third 1 (MultiCanTransmitterApp.machine s)) s in
  PeriodicTask.trace (MultiCanTransmitterApp.machine s')
  = [(Some 1, ESend 7 (mkMessage 256 [1%Z; 2%Z] false) (CanError "injected"));
     (Some 1, EPrint (TransmissionError "injected"))] /\
  MultiCanTransmitterApp.log_text s' = MultiCanTransmitterApp.log_text s.
Proof.
  intros s s'.
  apply (send_attempt_report every_third 2 1 s s'
           (PeriodicTask.mk (Some 7) 256 [1%Z; 2%Z] false (fdiv (Finite 100) 1000) true
              (Some AtBody) false) 7); reflexivity.
Defined.

(** * The loop goes on after a failed send *)

Section Cycles.

Import PeriodicTask.

Variable inject : nat -> SendOutcome.

Lemma failure_lines_report a r :
  failure_lines a ((Some a,.) <$> report r) = if failed r then 1 else 0.
Proof. unfold failure_lines. rewrite events_of_tagged_eq. destruct r; reflexivity. Qed.

(** One turn of the loop of a running task that holds a bus: the task
    is back at the head of the loop with its fields as they were, one
    frame went to the bus, and a line was printed exactly if the send
    failed. *)
Lemma one_cycle a m x b :
  heap m !! a = Some x -> bus x = Some b -> running x = true ->
  _stop_event x = false -> thread x = Some AtWhile ->
  payload_ok (data x) = true -> wait_raises (cycle_time x) = false ->
  let r := inject (send_count (trace m)) in
  let m' := Nat.iter 3 (schedule inject a) m in
  heap m' !! a = Some x /\
  trace m' = trace m ++ ((Some a,.) <$> (ESend b (message x) r :: report r))
               ++ [(Some a, EWait (cycle_time x))].
Proof.
  intros Hx Hb Hr He Hp Hok Hw r m'. subst m'. simpl.
  destruct (schedule_at inject a m x AtWhile Hx Hp) as [H1 T1].
  simpl in H1, T1. rewrite Hr in H1, T1. simpl in H1, T1. rewrite app_nil_r in T1.
  set (m1 := schedule inject a m) in *.
  destruct (schedule_at inject a m1 _ AtBody H1 eq_refl) as [H2 T2].
  simpl in H2, T2. rewrite Hb, Hok in H2, T2. simpl in H2, T2. rewrite T1 in T2.
  set (m2 := schedule inject a m1) in *.
  destruct (schedule_at inject a m2 _ AtWait H2 eq_refl) as [H3 T3].
  simpl in H3, T3. rewrite He, Hw in H3, T3. simpl in H3, T3.
  split.
  - rewrite H3. f_equal. destruct x; simpl in *; subst; reflexivity.
  - rewrite T3, T2. fold r. rewrite <- app_assoc. reflexivity.
Qed.

Lemma sends_of_cycle a b msg r ct :
  sends_of a (((Some a,.) <$> (ESend b msg r :: report r)) ++ [(Some a, EWait ct)])
  = [ESend b msg r].
Proof.
  unfold sends_of. rewrite events_of_app, events_of_tagged_eq.
  unfold events_of. rewrite filter_cons. simpl.
  destruct (decide (Some a = Some a)); [|congruence]. destruct r; reflexivity.
Qed.

Lemma send_count_cycle a b msg r ct :
  send_count (((Some a,.) <$> (ESend b msg r :: report r)) ++ [(Some a, EWait ct)]) = 1.
Proof. destruct r; reflexivity. Qed.

Lemma failure_lines_cycle a b msg r ct :
  failure_lines a (((Some a,.) <$> (ESend b msg r :: report r)) ++ [(Some a, EWait ct)])
  = if failed r then 1 else 0.
Proof.
  unfold failure_lines. rewrite events_of_app, events_of_tagged_eq.
  unfold events_of. rewrite filter_cons. simpl.
  destruct (decide (Some a = Some a)); [|congruence]. destruct r; reflexivity.
Qed.

Lemma raised_cycle a b msg r ct :
  raised (events_of (Some a)
            (((Some a,.) <$> (ESend b msg r :: report r)) ++ [(Some a, EWait ct)])) = [].
Proof.
  rewrite events_of_app, events_of_tagged_eq.
  unfold events_of. rewrite filter_cons. simpl.
  destruct (decide (Some a = Some a)); [|congruence]. destruct r; reflexivity.
Qed.

Lemma cycles_spec n a m x b :
  heap m !! a = Some x -> bus x = Some b -> running x = true ->
  _stop_event x = false -> thread x = Some AtWhile ->
  payload_ok (data x) = true -> wait_raises (cycle_time x) = false ->
  let m' := cycles inject n a m in
  heap m' !! a = Some x /\
  send_count (trace m') = send_count (trace m) + n /\
  length (sends_of a (trace m')) = length (sends_of a (trace m)) + n /\
  failure_lines a (trace m')
  = failure_lines a (trace m) + failures inject (send_count (trace m)) n /\
  raised (events_of (Some a) (trace m')) = raised (events_of (Some a) (trace m)).
Proof.
  intros Hx Hb Hr He Hp Hok Hw. induction n as [|n IH]; simpl.
  - unfold cycles. simpl. repeat split; auto; lia.
  - destruct IH as (I1 & I2 & I3 & I4 & I5).
    assert (E : cycles inject (S n) a m = Nat.iter 3 (schedule inject a) (cycles inject n a m)).
    { unfold cycles. replace (3 * S n) with (3 + 3 * n) by lia.
      apply Nat.iter_add. }
    rewrite E.
    destruct (one_cycle a (cycles inject n a m) x b I1 Hb Hr He Hp Hok Hw) as [O1 O2].
    split; [exact O1|]. rewrite O2.
    rewrite send_count_app, sends_of_app, failure_lines_app, events_of_app.
    unfold raised at 1. rewrite omap_app. fold (raised (events_of (Some a) (trace (cycles inject n a m)))).
    rewrite send_count_cycle, sends_of_cycle, failure_lines_cycle.
    change (omap _ ?l) with (raised l). rewrite raised_cycle, app_nil_r.
    rewrite length_app, I2, I3, I4. simpl. repeat split; try lia. exact I5.
Qed.

(** Whatever the transport answers, the worker goes on from the same
    control point with the same fields, and raises what it would have
    raised after a send that succeeded. *)
Lemma run_outcome r p x :
  fst (_run r p x) = fst (_run Sent p x) /\
  raised (snd (_run r p x)) = raised (snd (_run Sent p x)).
Proof.
  destruct p; try (split; reflexivity). simpl.
  destruct (bus x); [|split; reflexivity].
  destruct (payload_ok (data x)); [|split; reflexivity].
  destruct r; split; reflexivity.
Qed.

End Cycles.

(** C5.  A send that fails is caught and reported, never propagated.
    (1) For every transmitter, at every point of its loop and whatever
    the transport answers, the worker goes on exactly as after a send
    that succeeded: same fields, same control point, and no exception
    leaves [_run] that would not have left it otherwise.  (2) For a
    running transmitter that holds a bus, whose payload is made of
    bytes and whose cycle time the timed wait accepts (the two calls of
    the loop that are outside the [try]), after any number [n] of turns
    of its loop, whatever the transport answered: the task is still
    running (flags unchanged, thread alive, back at the head of the
    loop), it has handed [n] frames to the bus, and the number of
    failure lines it has printed is the number of sends that failed.
    (3) With a transport that rejects every third call (the calls
    number 0 and 3 among the first five), five turns give exactly two
    failure lines. *)
Theorem send_failure_is_contained
    (inject : nat -> SendOutcome) (n a : nat) (m : PeriodicTask.Machine)
    (x : PeriodicTask.t) (b : Bus) :
  PeriodicTask.heap m !! a = Some x ->
  PeriodicTask.bus x = Some b ->
  PeriodicTask.running x = true ->
  PeriodicTask._stop_event x = false ->
  PeriodicTask.thread x = Some AtWhile ->
  payload_ok (PeriodicTask.data x) = true ->
  wait_raises (PeriodicTask.cycle_time x) = false ->
  let m' := cycles inject n a m in
  (forall r p y,
     fst (PeriodicTask._run r p y) = fst (PeriodicTask._run Sent p y) /\
     raised (snd (PeriodicTask._run r p y)) = raised (snd (PeriodicTask._run Sent p y))) /\
  PeriodicTask.heap m' !! a = Some x /\
  PeriodicTask.alive a m' = true /\
  raised (events_of (Some a) (PeriodicTask.trace m'))
  = raised (events_of (Some a) (PeriodicTask.trace m)) /\
  length (sends_of a (PeriodicTask.trace m'))
  = length (sends_of a (PeriodicTask.trace m)) + n /\
  failure_lines a (PeriodicTask.trace m')
  = failure_lines a (PeriodicTask.trace m)
    + failures inject (send_count (PeriodicTask.trace m)) n /\
  failures every_third 0 5 = 2.
Proof.
  intros Hx Hb Hr He Hp Hok Hw m'. subst m'.
  pose proof (cycles_spec inject n a m x b Hx Hb Hr He Hp Hok Hw) as H. cbv zeta in H.
  destruct H as (H1 & _ & H3 & H4 & H5).
  split; [intros r p y; apply run_outcome|].
  split; [exact H1|]. split.
  - unfold PeriodicTask.alive. rewrite H1.
    unfold PeriodicTask.is_alive. rewrite Hp. reflexivity.
  - split; [exact H5|]. split; [exact H3|]. split; [exact H4 | reflexivity].
Qed.

Lemma send_failure_is_contained_witness :
  let m := MultiCanTransmitterApp.machine demo_started in
  let m' := cycles every_third 5 1 m in
  PeriodicTask.heap m' !! 1 = PeriodicTask.heap m !! 1 /\
  PeriodicTask.alive 1 m' = true /\
  length (sends_of 1 (PeriodicTask.trace m')) = 5 /\
  failure_lines 1 (PeriodicTask.trace m') = 2.
Proof.
  destruct (send_failure_is_contained every_third 5 1
              (MultiCanTransmitterApp.machine demo_started)
              (PeriodicTask.mk (Some 7) 256 [1%Z; 2%Z] false (fdiv (Finite 100) 1000) true
                 (Some AtWhile) false) 7 eq_refl eq_refl eq_refl eq_refl eq_refl
              eq_refl eq_refl)
    as (_ & H1 & H2 & _ & H3 & H4 & _).
  repeat split; assumption.
Defined.

(** * Starting when the bus cannot be opened *)

Section OpenFails.

Import MultiCanTransmitterApp.

(** Whether the open succeeds does not depend on the log. *)
Lemma setup_can_bus_log cfg drv msg s :
  fst (setup_can_bus cfg drv (log msg s)) = fst (setup_can_bus cfg drv s).
Proof.
  unfold setup_can_bus. rewrite log_bus. destruct (bus s); [reflexivity|].
  destruct (String.eqb _ _); [reflexivity|].
  destruct (String.eqb _ _); [reflexivity|].
  destruct (drv _ _ _); reflexivity.
Qed.

(** A failed open changes the log and the dialogs only. *)
Lemma setup_can_bus_failed cfg drv s :
  fst (setup_can_bus cfg drv s) = false ->
  let s' := snd (setup_can_bus cfg drv s) in
  bus s' = bus s /\ machine s' = machine s /\ periodic_tasks s' = periodic_tasks s /\
  message_table s' = message_table s /\ next_item s' = next_item s /\
  start_button s' = start_button s /\ stop_button s' = stop_button s.
Proof.
  unfold setup_can_bus. destruct (bus s) eqn:E; [discriminate|].
  destruct (String.eqb (channel cfg) "Manual Input (Set Channel)");
    [intros _; simpl; rewrite E; repeat split|].
  destruct (String.eqb (channel cfg) "");
    [intros _; simpl; rewrite E; repeat split|].
  destruct (drv _ _ _); [discriminate| | |];
    intros _; simpl; rewrite E; repeat split.
Qed.

(** A successful open leaves the application with a bus. *)
Lemma setup_can_bus_opened cfg drv s :
  fst (setup_can_bus cfg drv s) = true -> is_Some (bus (snd (setup_can_bus cfg drv s))).
Proof.
  unfold setup_can_bus. destruct (bus s) eqn:E; [simpl; rewrite E; eauto|].
  destruct (String.eqb _ _); [discriminate|].
  destruct (String.eqb _ _); [discriminate|].
  destruct (drv _ _ _); try discriminate. simpl. eauto.
Qed.

End OpenFails.

(** C6.  [start_cyclic] called while no bus is open first tries to open
    one, and if the open fails it gives up with no partial start: all
    it has done is log the attempt, make the attempt and log the
    failure; no transmitter is created and no thread started (the
    machine is what it was), the collection, the table and the buttons
    are unchanged, and the application still holds no bus. *)
Theorem start_cyclic_aborts_when_open_fails
    (cfg : BusConfig) (drv : Driver) (s : MultiCanTransmitterApp.t) :
  MultiCanTransmitterApp.bus s = None ->
  fst (MultiCanTransmitterApp.setup_can_bus cfg drv s) = false ->
  let s' := MultiCanTransmitterApp.start_cyclic cfg drv s in
  s' = MultiCanTransmitterApp.log FailedAborted
         (snd (MultiCanTransmitterApp.setup_can_bus cfg drv
                 (MultiCanTransmitterApp.log NotInitializedAttempting s))) /\
  MultiCanTransmitterApp.bus s' = None /\
  MultiCanTransmitterApp.machine s' = MultiCanTransmitterApp.machine s /\
  MultiCanTransmitterApp.periodic_tasks s' = MultiCanTransmitterApp.periodic_tasks s /\
  MultiCanTransmitterApp.message_table s' = MultiCanTransmitterApp.message_table s /\
  MultiCanTransmitterApp.start_button s' = MultiCanTransmitterApp.start_button s /\
  MultiCanTransmitterApp.stop_button s' = MultiCanTransmitterApp.stop_button s.
Proof.
  intros Hb Hf s'. subst s'. unfold MultiCanTransmitterApp.start_cyclic. rewrite Hb.
  pose proof (setup_can_bus_log cfg drv NotInitializedAttempting s) as E.
  rewrite Hf in E.
  pose proof (setup_can_bus_failed cfg drv
                (MultiCanTransmitterApp.log NotInitializedAttempting s) E) as H.
  clear Hf.
  destruct (MultiCanTransmitterApp.setup_can_bus cfg drv
              (MultiCanTransmitterApp.log NotInitializedAttempting s)) as [ok s1].
  simpl in E, H. subst ok.
  destruct H as (H1 & H2 & H3 & H4 & _ & H6 & H7).
  split; [reflexivity|].
  rewrite log_bus, log_machine, log_periodic_tasks, log_message_table.
  change (MultiCanTransmitterApp.start_button (MultiCanTransmitterApp.log FailedAborted s1))
    with (MultiCanTransmitterApp.start_button s1).
  change (MultiCanTransmitterApp.stop_button (MultiCanTransmitterApp.log FailedAborted s1))
    with (MultiCanTransmitterApp.stop_button s1).
  rewrite H1, H2, H3, H4, H6, H7, Hb. repeat split.
Qed.

Lemma start_cyclic_aborts_when_open_fails_witness :
  let s' := MultiCanTransmitterApp.start_cyclic demo_cfg demo_bad_drv demo_added in
  s' = MultiCanTransmitterApp.log FailedAborted
         (snd (MultiCanTransmitterApp.setup_can_bus demo_cfg demo_bad_drv
                 (MultiCanTransmitterApp.log NotInitializedAttempting demo_added))) /\
  MultiCanTransmitterApp.bus s' = None /\
  MultiCanTransmitterApp.machine s' = MultiCanTransmitterApp.machine demo_added /\
  MultiCanTransmitterApp.periodic_tasks s' = MultiCanTransmitterApp.periodic_tasks demo_added /\
  MultiCanTransmitterApp.message_table s' = MultiCanTransmitterApp.message_table demo_added /\
  MultiCanTransmitterApp.start_button s' = MultiCanTransmitterApp.start_button demo_added /\
  MultiCanTransmitterApp.stop_button s' = MultiCanTransmitterApp.stop_button demo_added.
Proof.
  apply (start_cyclic_aborts_when_open_fails demo_cfg demo_bad_drv demo_added); reflexivity.
Defined.

(** * The registry after [start_cyclic] *)

Section Rebuild.

Import MultiCanTransmitterApp.

Lemma setup_can_bus_message_table cfg drv s :
  message_table (snd (setup_can_bus cfg drv s)) = message_table s.
Proof.
  unfold setup_can_bus. destruct (bus s); [reflexivity|].
  destruct (String.eqb _ _); [reflexivity|].
  destruct (String.eqb _ _); [reflexivity|].
  destruct (drv _ _ _); reflexivity.
Qed.

Lemma started_rows_cons r rows :
  started_rows (r :: rows)
  = if row_converts r then r :: started_rows rows else started_rows rows.
Proof.
  unfold started_rows. rewrite filter_cons.
  destruct (row_converts r); [rewrite decide_True by reflexivity
                             | rewrite decide_False by discriminate]; reflexivity.
Qed.

(** One task per row that converts, in order, each bound to the bus
    held now. *)
Lemma start_rows_spec rows s :
  let h := PeriodicTask.heap (machine s) in
  let s' := start_rows rows s in
  PeriodicTask.heap (machine s') = h ++ (task_of_row (bus s) <$> started_rows rows) /\
  PeriodicTask.trace (machine s') = PeriodicTask.trace (machine s) /\
  periodic_tasks s' = periodic_tasks s ++ seq (length h) (length (started_rows rows)) /\
  bus s' = bus s.
Proof.
  revert s. induction rows as [|r rows IH]; intros s; simpl.
  - rewrite !app_nil_r. auto.
  - destruct (IH (start_row r s)) as (H1 & H2 & H3 & H4).
    unfold start_rows in *. rewrite H1, H2, H3, H4. clear H1 H2 H3 H4.
    rewrite started_rows_cons. unfold start_row, row_converts.
    destruct (int_of (row_cycle_time r)) as [z|e].
    + rewrite log_machine, log_periodic_tasks, log_bus.
      rewrite spawn_heap, spawn_trace, spawn_periodic_tasks, spawn_bus.
      rewrite length_app. simpl. rewrite Nat.add_1_r, <- !app_assoc. auto.
    + rewrite log_machine, log_periodic_tasks, log_bus. auto.
Qed.


Lemma has_id_middle h x l can_id :
  has_id (h ++ x :: l) can_id (length h) = Z.eqb (PeriodicTask.can_id x) can_id.
Proof. unfold has_id. rewrite list_lookup_middle by reflexivity. reflexivity. Qed.

(** Among freshly allocated tasks, those with a given identifier. *)
Lemma count_fresh h ts can_id :
  length (filter (fun a => has_id (h ++ ts) can_id a = true) (seq (length h) (length ts)))
  = length (filter (fun x => PeriodicTask.can_id x = can_id) ts).
Proof.
  revert h. induction ts as [|x ts IH]; intros h; [reflexivity|].
  simpl. rewrite !filter_cons, has_id_middle.
  specialize (IH (h ++ [x])). rewrite length_app, Nat.add_1_r, <- app_assoc in IH.
  simpl in IH.
  destruct (Z.eqb_spec (PeriodicTask.can_id x) can_id) as [E|E].
  - rewrite decide_True by reflexivity. rewrite decide_True by assumption.
    simpl. f_equal. exact IH.
  - rewrite decide_False by discriminate. rewrite decide_False by assumption. exact IH.
Qed.

Lemma count_rows b rows can_id :
  length (filter (fun x => PeriodicTask.can_id x = can_id) (task_of_row b <$> rows))
  = length (filter (fun r => row_can_id r = can_id) rows).
Proof.
  induction rows as [|r rows IH]; [reflexivity|].
  simpl. rewrite !filter_cons. simpl.
  destruct (decide (row_can_id r = can_id)); simpl; auto.
Qed.

(** The body of [start_cyclic] once a bus is there. *)
Lemma rebuild_spec s :
  let h := PeriodicTask.heap (machine s) in
  let rows := started_rows (message_table s).*2 in
  let s' := rebuild s in
  PeriodicTask.heap (machine s') = h ++ (task_of_row (bus s) <$> rows) /\
  PeriodicTask.trace (machine s') = PeriodicTask.trace (machine s) /\
  periodic_tasks s' = seq (length h) (length rows) /\
  bus s' = bus s.
Proof.
  intros h rows s'.
  destruct (start_rows_spec (message_table s).*2 (set_periodic_tasks [] s))
    as (H1 & H2 & H3 & H4).
  subst s'. unfold rebuild. cbv zeta.
  change (message_table (set_periodic_tasks [] s)) with (message_table s).
  fold rows. simpl. rewrite H1, H2, H3, H4. auto.
Qed.

End Rebuild.




(** * Upsert keyed on the identifier *)

Section UpsertOne.

Import MultiCanTransmitterApp.

Lemma find_none_filter (f : nat -> bool) l :
  find f l = None -> filter (fun a => f a = true) l = [].
Proof.
  induction l as [|a l IH]; [reflexivity|]. simpl.
  destruct (f a) eqn:E; [discriminate|]. intros H.
  rewrite filter_cons, decide_False by (rewrite E; discriminate). auto.
Qed.

Lemma find_some_filter (f : nat -> bool) l a :
  find f l = Some a -> f a = true /\ 1 <= length (filter (fun b => f b = true) l).
Proof.
  induction l as [|b l IH]; [discriminate|]. simpl.
  destruct (f b) eqn:E.
  - intros [= <-]. split; [assumption|].
    rewrite filter_cons, decide_True by assumption. simpl. lia.
  - intros H. destruct (IH H) as [H1 H2]. split; [assumption|].
    rewrite filter_cons, decide_False by (rewrite E; discriminate). assumption.
Qed.

Lemma find_ext (f g : nat -> bool) l :
  Forall (fun a => f a = g a) l -> find f l = find g l.
Proof.
  induction 1 as [|a l E _ IH]; [reflexivity|]. simpl. rewrite E, IH. reflexivity.
Qed.

Lemma filter_ext_on (f g : nat -> bool) l :
  Forall (fun a => f a = g a) l ->
  filter (fun a => f a = true) l = filter (fun a => g a = true) l.
Proof.
  induction 1 as [|a l E _ IH]; [reflexivity|].
  rewrite !filter_cons, IH, E. reflexivity.
Qed.

Lemma find_app_none (f : nat -> bool) l l' :
  find f l = None -> find f (l ++ l') = find f l'.
Proof.
  induction l as [|a l IH]; [reflexivity|]. simpl.
  destruct (f a); [discriminate | exact IH].
Qed.

(** Writing a task with the same identifier at an address changes no
    answer of the search. *)
Lemma has_id_insert h a x y can_id b :
  h !! a = Some x -> PeriodicTask.can_id y = PeriodicTask.can_id x ->
  has_id (<[a := y]> h) can_id b = has_id h can_id b.
Proof.
  intros Hx Hy. unfold has_id. destruct (decide (a = b)) as [<-|Hne].
  - rewrite list_lookup_insert_eq by (eapply lookup_lt_Some; eassumption).
    rewrite Hx, Hy. reflexivity.
  - rewrite list_lookup_insert_ne by assumption. reflexivity.
Qed.

Lemma has_id_app h l can_id b :
  b < length h -> has_id (h ++ l) can_id b = has_id h can_id b.
Proof. intros H. unfold has_id. rewrite lookup_app_l by assumption. reflexivity. Qed.

Lemma has_id_lookup h can_id a :
  has_id h can_id a = true ->
  exists x, h !! a = Some x /\ PeriodicTask.can_id x = can_id.
Proof.
  unfold has_id. destruct (h !! a) as [x|]; [|discriminate].
  intros H. apply Z.eqb_eq in H. eauto.
Qed.

(** One call of [add_message] with identifier [can_id], on a registry
    that has at most one transmitter with it. *)
Lemma add_message_one can_id data cycle_ms id_type s :
  registry_valid s -> count_id can_id s <= 1 ->
  let s' := add_message (Parsed can_id data cycle_ms id_type) s in
  registry_valid s' /\ count_id can_id s' = 1 /\
  PeriodicTask.trace (machine s') = PeriodicTask.trace (machine s) /\
  exists a x',
    find_task can_id s' = Some a /\
    PeriodicTask.heap (machine s') !! a = Some x' /\
    carries can_id data cycle_ms id_type x' /\
    (forall a0 x0,
       find_task can_id s = Some a0 ->
       PeriodicTask.heap (machine s) !! a0 = Some x0 ->
       a = a0 /\ periodic_tasks s' = periodic_tasks s /\ same_control x' x0).
Proof.
  intros Hv Hc s'. subst s'.
  destruct (find_task can_id s) as [a|] eqn:Hf.
  - (* update *)
    pose proof Hf as Hfind. unfold find_task in Hfind.
    apply find_some_filter in Hfind as [Hid Hge].
    destruct (has_id_lookup _ _ _ Hid) as (x & Hx & Hxid).
    destruct (add_message_update can_id data cycle_ms id_type s a x Hf Hx)
      as (E1 & E2 & E3 & E4).
    set (y := PeriodicTask.mk _ _ _ _ _ _ _ _) in E1.
    assert (Hsame : forall l : list nat,
               Forall (fun b => has_id (<[a := y]> (PeriodicTask.heap (machine s))) can_id b
                                = has_id (PeriodicTask.heap (machine s)) can_id b) l).
    { intros l. apply Forall_forall. intros b _.
      apply (has_id_insert _ a x y can_id b Hx). reflexivity. }
    split; [|split; [|split; [exact E2|]]].
    + unfold registry_valid. rewrite E1, E3, length_insert. exact Hv.
    + unfold count_id in *. rewrite E1, E3.
      rewrite (filter_ext_on _ _ _ (Hsame _)). lia.
    + exists a, y. split; [|split; [|split]].
      * unfold find_task. rewrite E1, E3. rewrite (find_ext _ _ _ (Hsame _)). exact Hf.
      * rewrite E1. apply list_lookup_insert_eq. eapply lookup_lt_Some; eassumption.
      * subst y. repeat split. simpl. exact Hxid.
      * intros a0 x0 [= <-] Hx0. rewrite Hx in Hx0. injection Hx0 as <-.
        split; [reflexivity|]. split; [exact E3|]. subst y. repeat split.
  - (* creation *)
    destruct (add_message_create can_id data cycle_ms id_type s Hf) as (E1 & E2 & E3 & E4).
    set (y := PeriodicTask.mk _ _ _ _ _ _ _ _) in E1.
    set (h := PeriodicTask.heap (machine s)) in *.
    assert (Hsame : Forall (fun b => has_id (h ++ [y]) can_id b = has_id h can_id b)
                      (periodic_tasks s)).
    { eapply Forall_impl; [exact Hv|]. intros b Hb. apply has_id_app. exact Hb. }
    assert (Hnew : has_id (h ++ [y]) can_id (length h) = true).
    { rewrite has_id_middle. subst y. simpl. apply Z.eqb_refl. }
    split; [|split; [|split; [exact E2|]]].
    + unfold registry_valid. rewrite E1, E3, length_app. simpl.
      apply Forall_app. split.
      * eapply Forall_impl; [exact Hv|]. simpl. intros b Hb. fold h in Hb. lia.
      * apply Forall_singleton. fold h. lia.
    + unfold count_id. rewrite E1, E3, filter_app, length_app.
      rewrite (filter_ext_on _ _ _ Hsame).
      unfold find_task in Hf. fold h in Hf. rewrite (find_none_filter _ _ Hf).
      rewrite filter_cons, decide_True by exact Hnew. reflexivity.
    + exists (length h), y. split; [|split; [|split]].
      * unfold find_task. rewrite E1, E3.
        rewrite find_app_none.
        -- simpl. rewrite Hnew. reflexivity.
        -- rewrite (find_ext _ _ _ Hsame). exact Hf.
      * rewrite E1. apply list_lookup_middle. reflexivity.
      * subst y. repeat split.
      * intros a0 x0 Hf0. discriminate.
Qed.

End UpsertOne.

(** C3.  Take a registry with at most one transmitter for [can_id]
    (and only allocated entries), and any sequence of calls of
    [add_message] with that identifier, whatever the payloads, cycle
    times and id types; let the last call carry [data], [cycle_ms],
    [id_type].  Afterwards exactly one transmitter of the registry has
    the identifier; it carries the values of the last call; no worker
    was run, stopped or joined (the trace is unchanged); if a
    transmitter for the identifier existed before, it is the same
    object at the same address, with the registry unchanged and its
    bus, flags and thread untouched; and a tick of it hands to the bus
    the frame built from the latest values, the payload being made of
    bytes (for another payload [can.Message] raises and there is no
    frame). *)
Theorem upsert_keeps_one_transmitter
    (s : MultiCanTransmitterApp.t) (earlier : list Entry)
    (can_id : Z) (data : list Z) (cycle_ms : PyFloat) (id_type : string) :
  registry_valid s ->
  count_id can_id s <= 1 ->
  Forall (fun e => entry_id e = Some can_id) earlier ->
  let s' := MultiCanTransmitterApp.add_message (Parsed can_id data cycle_ms id_type)
              (add_messages earlier s) in
  count_id can_id s' = 1 /\
  PeriodicTask.trace (MultiCanTransmitterApp.machine s')
  = PeriodicTask.trace (MultiCanTransmitterApp.machine s) /\
  exists a x',
    MultiCanTransmitterApp.find_task can_id s' = Some a /\
    PeriodicTask.heap (MultiCanTransmitterApp.machine s') !! a = Some x' /\
    carries can_id data cycle_ms id_type x' /\
    (forall a0 x0,
       MultiCanTransmitterApp.find_task can_id s = Some a0 ->
       PeriodicTask.heap (MultiCanTransmitterApp.machine s) !! a0 = Some x0 ->
       a = a0 /\
       MultiCanTransmitterApp.periodic_tasks s' = MultiCanTransmitterApp.periodic_tasks s /\
       same_control x' x0) /\
    (forall r b,
       PeriodicTask.bus x' = Some b ->
       payload_ok data = true ->
       snd (PeriodicTask._run r AtBody x')
       = ESend b (mkMessage can_id data (String.eqb id_type "Extended")) r
           :: PeriodicTask.report r).
Proof.
  intros Hv Hc Hall s'. subst s'.
  assert (Hmain :
    registry_valid (MultiCanTransmitterApp.add_message (Parsed can_id data cycle_ms id_type)
                      (add_messages earlier s)) /\
    count_id can_id (MultiCanTransmitterApp.add_message (Parsed can_id data cycle_ms id_type)
                      (add_messages earlier s)) = 1 /\
    PeriodicTask.trace (MultiCanTransmitterApp.machine
       (MultiCanTransmitterApp.add_message (Parsed can_id data cycle_ms id_type)
          (add_messages earlier s)))
    = PeriodicTask.trace (MultiCanTransmitterApp.machine s) /\
    exists a x',
      MultiCanTransmitterApp.find_task can_id
        (MultiCanTransmitterApp.add_message (Parsed can_id data cycle_ms id_type)
           (add_messages earlier s)) = Some a /\
      PeriodicTask.heap (MultiCanTransmitterApp.machine
        (MultiCanTransmitterApp.add_message (Parsed can_id data cycle_ms id_type)
           (add_messages earlier s))) !! a = Some x' /\
      carries can_id data cycle_ms id_type x' /\
      (forall a0 x0,
         MultiCanTransmitterApp.find_task can_id s = Some a0 ->
         PeriodicTask.heap (MultiCanTransmitterApp.machine s) !! a0 = Some x0 ->
         a = a0 /\
         MultiCanTransmitterApp.periodic_tasks
           (MultiCanTransmitterApp.add_message (Parsed can_id data cycle_ms id_type)
              (add_messages earlier s))
         = MultiCanTransmitterApp.periodic_tasks s /\
         same_control x' x0)).
  { revert s Hv Hc. induction Hall as [|e earlier He _ IH]; intros s Hv Hc.
    - apply add_message_one; assumption.
    - destruct e as [id1 d1 c1 ty1|]; [|discriminate]. injection He as ->.
      change (add_messages (Parsed can_id d1 c1 ty1 :: earlier) s)
        with (add_messages earlier
                (MultiCanTransmitterApp.add_message (Parsed can_id d1 c1 ty1) s)).
      destruct (add_message_one can_id d1 c1 ty1 s Hv Hc)
        as (V1 & C1 & T1 & a1 & x1 & F1 & X1 & _ & R1).
      destruct (IH _ V1 ltac:(lia)) as (V2 & C2 & T2 & a & x' & F2 & X2 & K2 & R2).
      split; [exact V2|]. split; [exact C2|]. split; [congruence|].
      exists a, x'. split; [exact F2|]. split; [exact X2|]. split; [exact K2|].
      intros a0 x0 Hf0 Hx0.
      destruct (R1 a0 x0 Hf0 Hx0) as (-> & P1 & S1).
      destruct (R2 a0 x1 F1 X1) as (-> & P2 & S2).
      split; [reflexivity|]. split; [congruence|].
      destruct S1 as (? & ? & ? & ? & ?), S2 as (? & ? & ? & ? & ?).
      repeat split; congruence. }
  destruct Hmain as (_ & C & T & a & x' & F & X & K & R).
  split; [exact C|]. split; [exact T|].
  exists a, x'. split; [exact F|]. split; [exact X|]. split; [exact K|].
  split; [exact R|].
  intros r b Hb Hok. destruct K as (K1 & K2 & K3 & K4).
  simpl. rewrite Hb, K2, Hok. simpl. unfold PeriodicTask.message.
  rewrite K1, K2, K4. reflexivity.
Qed.

Lemma upsert_keeps_one_transmitter_witness :
  let s' := MultiCanTransmitterApp.add_message (Parsed 256 [9%Z] (Finite 50) "Extended")
              (add_messages [Parsed 256 [3%Z] (Finite 20) "Standard"] demo_started) in
  count_id 256 s' = 1 /\
  PeriodicTask.trace (MultiCanTransmitterApp.machine s')
  = PeriodicTask.trace (MultiCanTransmitterApp.machine demo_started) /\
  exists a x',
    MultiCanTransmitterApp.find_task 256 s' = Some a /\
    PeriodicTask.heap (MultiCanTransmitterApp.machine s') !! a = Some x' /\
    carries 256 [9%Z] (Finite 50) "Extended" x' /\
    (forall a0 x0,
       MultiCanTransmitterApp.find_task 256 demo_started = Some a0 ->
       PeriodicTask.heap (MultiCanTransmitterApp.machine demo_started) !! a0 = Some x0 ->
       a = a0 /\
       MultiCanTransmitterApp.periodic_tasks s'
       = MultiCanTransmitterApp.periodic_tasks demo_started /\
       same_control x' x0) /\
    (forall r b,
       PeriodicTask.bus x' = Some b ->
       payload_ok [9%Z] = true ->
       snd (PeriodicTask._run r AtBody x')
       = ESend b (mkMessage 256 [9%Z] (String.eqb "Extended" "Extended")) r
           :: PeriodicTask.report r).
Proof.
  apply (upsert_keeps_one_transmitter demo_started [Parsed 256 [3%Z] (Finite 20) "Standard"]
           256 [9%Z] (Finite 50) "Extended").
  - unfold registry_valid. vm_compute. repeat constructor.
  - vm_compute. lia.
  - repeat constructor.
Defined.

(** * Registries built by "Add Message" alone *)

Section UniqueIds.

Import MultiCanTransmitterApp.

(** [add_message] keeps the registry free of duplicate identifiers:
    the hypotheses of the theorem above hold in every state reached
    from the initial one by calls of [add_message]. *)
Lemma add_message_unique e s :
  registry_valid s -> (forall can_id, count_id can_id s <= 1) ->
  registry_valid (add_message e s) /\
  forall can_id, count_id can_id (add_message e s) <= 1.
Proof.
  intros Hv Hc. destruct e as [id0 data cycle_ms id_type | err].
  2:{ split; [exact Hv | exact Hc]. }
  split; [apply add_message_one; auto|].
  intros can_id. destruct (decide (can_id = id0)) as [->|Hne].
  { destruct (add_message_one id0 data cycle_ms id_type s Hv (Hc id0)) as (_ & E & _).
    rewrite E. lia. }
  destruct (find_task id0 s) as [a|] eqn:Hf.
  - pose proof Hf as Hfind. unfold find_task in Hfind.
    apply find_some_filter in Hfind as [Hid _].
    destruct (has_id_lookup _ _ _ Hid) as (x & Hx & Hxid).
    destruct (add_message_update id0 data cycle_ms id_type s a x Hf Hx) as (E1 & _ & E3 & _).
    set (y := PeriodicTask.mk _ _ _ _ _ _ _ _) in E1.
    unfold count_id. rewrite E1, E3.
    rewrite (filter_ext_on _ (has_id (PeriodicTask.heap (machine s)) can_id)).
    + apply Hc.
    + apply Forall_forall. intros b _. apply (has_id_insert _ a x y can_id b Hx). reflexivity.
  - destruct (add_message_create id0 data cycle_ms id_type s Hf) as (E1 & _ & E3 & _).
    set (y := PeriodicTask.mk _ _ _ _ _ _ _ _) in E1.
    unfold count_id. rewrite E1, E3, filter_app, length_app.
    rewrite (filter_ext_on _ (has_id (PeriodicTask.heap (machine s)) can_id)).
    + rewrite filter_cons, decide_False.
      * simpl. specialize (Hc can_id). unfold count_id in Hc. lia.
      * rewrite has_id_middle. subst y. simpl.
        destruct (Z.eqb_spec id0 can_id); [congruence | discriminate].
    + eapply Forall_impl; [exact Hv|]. intros b Hb. apply has_id_app. exact Hb.
Qed.

Lemma add_messages_unique entries :
  registry_valid (add_messages entries __init__) /\
  forall can_id, count_id can_id (add_messages entries __init__) <= 1.
Proof.
  assert (G : forall s, registry_valid s -> (forall can_id, count_id can_id s <= 1) ->
              registry_valid (add_messages entries s) /\
              forall can_id, count_id can_id (add_messages entries s) <= 1).
  { induction entries as [|e entries IH]; intros s Hv Hc; [auto|].
    destruct (add_message_unique e s Hv Hc) as [Hv' Hc'].
    apply (IH _ Hv' Hc'). }
  apply G.
  - constructor.
  - intros can_id. unfold count_id. simpl. lia.
Qed.

End UniqueIds.

(** * Further properties of the worker *)

Section WorkerMore.

Import PeriodicTask.

Variable inject : nat -> SendOutcome.

(** A step of the worker of [a] shows in no other thread's events. *)
Lemma schedule_other_events who a m :
  who <> Some a ->
  events_of who (trace (schedule inject a m)) = events_of who (trace m).
Proof.
  intros Hne. unfold schedule. destruct (heap m !! a) as [x|]; [|reflexivity].
  destruct (thread x) as [p|]; [|reflexivity].
  destruct (_run _ p x) as [x' evs]. simpl.
  rewrite events_of_app, events_of_tagged_ne by assumption. apply app_nil_r.
Qed.

Lemma join_other_events who n a m m' :
  who <> Some a -> join inject n a m = Some m' ->
  events_of who (trace m') = events_of who (trace m).
Proof.
  intros Hne. revert m. induction n as [|n IH]; intros m; simpl.
  - destruct (alive a m); [discriminate | intros [= <-]; reflexivity].
  - destruct (alive a m).
    + intros H. rewrite (IH _ H). apply schedule_other_events; assumption.
    + intros [= <-]. reflexivity.
Qed.

Lemma stop_other_events who fuel a m m' :
  who <> Some a -> stop inject fuel a m = Some m' ->
  events_of who (trace m') = events_of who (trace m).
Proof.
  intros Hne. unfold stop. intros H.
  assert (E : events_of who (trace m')
              = events_of who (trace (update a (set_stop_event true)
                                        (update a (set_running false) m)))).
  { destruct (heap _ !! a) as [x|].
    - destruct (thread x).
      + eapply join_other_events; eassumption.
      + injection H as <-. reflexivity.
    - injection H as <-. reflexivity. }
  rewrite E, !update_trace. reflexivity.
Qed.

(** A step of a cancelled worker does not raise the number of frames
    sent plus the sends still owed. *)
Lemma schedule_potential a m x :
  heap m !! a = Some x -> cancelled x ->
  exists x', heap (schedule inject a m) !! a = Some x' /\ cancelled x' /\
    length (sends_of a (trace (schedule inject a m))) + budget x'
    <= length (sends_of a (trace m)) + budget x.
Proof.
  intros Hx Hc. destruct (thread x) as [p|] eqn:Ep.
  - destruct (schedule_at inject a m x p Hx Ep) as [H1 H2].
    eexists. split; [exact H1|]. split; [apply cancelled_run; assumption|].
    rewrite H2, sends_of_app. unfold sends_of at 2. rewrite events_of_tagged_eq.
    rewrite length_app. unfold budget at 2. rewrite Ep.
    destruct Hc as [Hr He].
    destruct p; simpl; unfold budget; simpl; rewrite ?Hr, ?He, ?Ep; simpl; try lia.
    destruct (bus x); simpl; [|lia].
    destruct (payload_ok (data x)); simpl; [|lia].
    destruct (inject _); simpl; lia.
  - rewrite (schedule_no_thread inject a m x Hx Ep). exists x. auto.
Qed.

Lemma join_potential n a m m' x :
  join inject n a m = Some m' -> heap m !! a = Some x -> cancelled x ->
  length (sends_of a (trace m')) <= length (sends_of a (trace m)) + budget x.
Proof.
  revert m x. induction n as [|n IH]; intros m x; simpl.
  - destruct (alive a m); [discriminate|]. intros [= <-] _ _. lia.
  - destruct (alive a m).
    + intros H Hx Hc.
      destruct (schedule_potential a m x Hx Hc) as (x' & Hx' & Hc' & Hle).
      pose proof (IH _ _ H Hx' Hc'). lia.
    + intros [= <-] _ _. lia.
Qed.

Lemma idle_setter f x : setter f -> idle x -> idle (f x).
Proof. intros Hf [H1 H2]. destruct Hf; split; simpl; auto. Qed.

Lemma idle_run r p x : thread x = Some p -> idle x -> idle (fst (_run r p x)).
Proof.
  intros Hp [H1 H2]. rewrite Hp in H2.
  destruct H2 as [H2 | [H2 | H2]]; [discriminate| |]; injection H2 as ->; simpl.
  - rewrite H1. split; simpl; auto.
  - split; auto.
Qed.

Lemma idle_silent r p x :
  thread x = Some p -> idle x ->
  filter (fun e => is_send e = true) (snd (_run r p x)) = [].
Proof.
  intros Hp [H1 H2]. rewrite Hp in H2.
  destruct H2 as [H2 | [H2 | H2]]; [discriminate| |]; injection H2 as ->; simpl.
  - rewrite H1. reflexivity.
  - reflexivity.
Qed.

(** The frames a step of [_run] hands to the bus carry the task's
    identifier and go to the task's bus. *)
Lemma run_frames r p x :
  Forall (frame_of (can_id x) (bus x))
    (filter (fun e => is_send e = true) (snd (_run r p x))).
Proof.
  destruct p; simpl.
  - destruct (running x); constructor.
  - destruct (bus x) as [b|] eqn:Eb; simpl.
    + destruct (payload_ok (data x)); simpl; [|constructor].
      rewrite filter_cons. simpl. constructor; [split; reflexivity|].
      destruct r; constructor.
    + constructor.
  - constructor.
  - destruct (_stop_event x); [constructor|].
    destruct (wait_raises (cycle_time x)); constructor.
  - constructor.
Qed.

Lemma mstep_frames c b a m m' :
  mstep inject m m' ->
  holds_at (fun y => can_id y = c /\ bus y = b) a m ->
  Forall (frame_of c b) (sends_of a (trace m)) ->
  Forall (frame_of c b) (sends_of a (trace m')).
Proof.
  intros Hstep (x & Hx & Hc & Hb) HF. destruct Hstep as [m d f Hf | m y | m d | m d].
  - rewrite update_trace. exact HF.
  - rewrite update_trace. exact HF.
  - destruct (decide (a = d)) as [->|Hne].
    + destruct (thread x) as [p|] eqn:Ep.
      * destruct (schedule_at inject d m x p Hx Ep) as [_ H2]. rewrite H2.
        rewrite sends_of_app. apply Forall_app. split; [exact HF|].
        unfold sends_of. rewrite events_of_tagged_eq. subst c b. apply run_frames.
      * rewrite (schedule_no_thread inject d m x Hx Ep). exact HF.
    + unfold sends_of. rewrite schedule_other_events by congruence. exact HF.
  - simpl. rewrite sends_of_app. apply Forall_app. split; [exact HF|].
    unfold sends_of, events_of. rewrite filter_cons. simpl.
    destruct (decide (None = Some a)); [congruence|]. constructor.
Qed.

Lemma fixed_setter c b f x :
  setter f -> can_id x = c /\ bus x = b -> can_id (f x) = c /\ bus (f x) = b.
Proof. intros Hf [H1 H2]. destruct Hf; simpl; auto. Qed.

Lemma fixed_run c b r p x :
  thread x = Some p -> can_id x = c /\ bus x = b ->
  can_id (fst (_run r p x)) = c /\ bus (fst (_run r p x)) = b.
Proof.
  intros Hp [H1 H2]. split; [|apply bound_run; assumption].
  subst c. destruct p; simpl; auto.
  - destruct (running x); reflexivity.
  - destruct (bus x); [|reflexivity]. destruct (payload_ok (data x)); reflexivity.
  - destruct (_stop_event x); [reflexivity|].
    destruct (wait_raises (cycle_time x)); reflexivity.
Qed.

Lemma msteps_frames c b a m m' :
  rtc (mstep inject) m m' ->
  holds_at (fun y => can_id y = c /\ bus y = b) a m ->
  Forall (frame_of c b) (sends_of a (trace m)) ->
  holds_at (fun y => can_id y = c /\ bus y = b) a m' /\
  Forall (frame_of c b) (sends_of a (trace m')).
Proof.
  induction 1 as [|m1 m2 m3 H12 H23 IH]; intros H HF; [auto|].
  apply IH.
  - eapply (mstep_stable inject _ (fixed_setter c b) (fixed_run c b)); eassumption.
  - eapply mstep_frames; eassumption.
Qed.

End WorkerMore.

(** X1.  [stop] lets at most the send in progress finish.  With a
    bound of two worker steps on [join], [stop] returns; the
    transmitter has handed to the bus at most one more frame than
    before the call, and none if its thread was not inside the body of
    the loop; the events of every other thread are what they were. *)
Theorem stop_lets_one_send_finish
    (inject : nat -> SendOutcome) (fuel a : nat) (m : PeriodicTask.Machine)
    (x : PeriodicTask.t) :
  2 <= fuel ->
  PeriodicTask.heap m !! a = Some x ->
  exists m',
    PeriodicTask.stop inject fuel a m = Some m' /\
    length (sends_of a (PeriodicTask.trace m'))
    <= length (sends_of a (PeriodicTask.trace m)) + budget x /\
    budget x <= 1 /\
    forall who, who <> Some a ->
      events_of who (PeriodicTask.trace m') = events_of who (PeriodicTask.trace m).
Proof.
  intros Hf Hx.
  destruct (stop_spec inject fuel a m Hf) as (m' & E & _ & _).
  exists m'. split; [exact E|]. split; [|split].
  - pose proof E as E'. unfold PeriodicTask.stop in E'.
    rewrite (stop_writes a m x Hx) in E'. simpl in E'.
    destruct (PeriodicTask.thread x) as [p|] eqn:Ep.
    + pose proof (join_potential inject fuel a _ m' _ E' (stop_writes a m x Hx)
                    (conj eq_refl eq_refl)) as H.
      rewrite !update_trace in H. unfold budget in *. simpl in H. rewrite Ep in *.
      exact H.
    + injection E' as <-. rewrite !update_trace. lia.
  - unfold budget. destruct (PeriodicTask.thread x) as [[]|]; lia.
  - intros who Hne. eapply stop_other_events; eassumption.
Qed.

Lemma stop_lets_one_send_finish_witness :
  exists m',
    PeriodicTask.stop demo_ok 2 1 (MultiCanTransmitterApp.machine demo_started) = Some m' /\
    length (sends_of 1 (PeriodicTask.trace m'))
    <= length (sends_of 1 (PeriodicTask.trace (MultiCanTransmitterApp.machine demo_started)))
       + 0 /\
    0 <= 1 /\
    forall who, who <> Some 1 ->
      events_of who (PeriodicTask.trace m')
      = events_of who (PeriodicTask.trace (MultiCanTransmitterApp.machine demo_started)).
Proof.
  refine (stop_lets_one_send_finish demo_ok 2 1
            (MultiCanTransmitterApp.machine demo_started)
            (PeriodicTask.mk (Some 7) 256 [1%Z; 2%Z] false (fdiv (Finite 100) 1000) true
               (Some AtWhile) false) _ _).
  - lia.
  - vm_compute. reflexivity.
Defined.

(** X2.  [start] after [stop] does not resume transmission.  [stop]
    leaves [running] cleared and nothing sets it again, so the thread
    that a later [start] creates is alive, leaves the loop at its first
    step, and whatever happens afterwards the transmitter hands no
    further frame to the bus. *)
Theorem start_after_stop_is_inert
    (inject : nat -> SendOutcome) (fuel a : nat) (s : MultiCanTransmitterApp.t) :
  holds_at stopped a (MultiCanTransmitterApp.machine s) ->
  let m1 := PeriodicTask.update a PeriodicTask.start (MultiCanTransmitterApp.machine s) in
  PeriodicTask.alive a m1 = true /\
  PeriodicTask.alive a (PeriodicTask.schedule inject a m1) = false /\
  forall ops s2,
    MultiCanTransmitterApp.run inject fuel ops (MultiCanTransmitterApp.set_machine m1 s)
    = Some s2 ->
    holds_at idle a (MultiCanTransmitterApp.machine s2) /\
    sends_of a (PeriodicTask.trace (MultiCanTransmitterApp.machine s2))
    = sends_of a (PeriodicTask.trace (MultiCanTransmitterApp.machine s)).
Proof.
  intros (x & Hx & Hr & He & Ha) m1.
  assert (Hs : PeriodicTask.start x = PeriodicTask.set_thread (Some AtWhile) x).
  { unfold PeriodicTask.start. rewrite Ha. reflexivity. }
  assert (H1 : PeriodicTask.heap m1 !! a = Some (PeriodicTask.set_thread (Some AtWhile) x)).
  { subst m1. rewrite <- Hs. apply update_lookup_eq. exact Hx. }
  split; [|split].
  - unfold PeriodicTask.alive. rewrite H1. reflexivity.
  - rewrite (alive_schedule inject a m1 _ AtWhile H1 eq_refl). simpl. rewrite Hr. reflexivity.
  - intros ops s2 Hrun.
    pose proof (run_msteps inject fuel ops _ s2 Hrun) as Hsteps. simpl in Hsteps.
    destruct (msteps_silent inject idle idle_setter idle_run idle_silent a m1 _ Hsteps)
      as [Hi Hq].
    + eexists. split; [exact H1|]. split; simpl; auto.
    + split; [exact Hi|]. rewrite Hq. subst m1. rewrite update_trace. reflexivity.
Qed.

Lemma start_after_stop_is_inert_witness :
  let s := MultiCanTransmitterApp.set_machine
             (PeriodicTask.update 1 (PeriodicTask.set_stop_event true)
                (PeriodicTask.update 1 (PeriodicTask.set_running false)
                   (PeriodicTask.update 1 (PeriodicTask.set_thread (Some Finished))
                      (MultiCanTransmitterApp.machine demo_started))))
             demo_started in
  let m1 := PeriodicTask.update 1 PeriodicTask.start (MultiCanTransmitterApp.machine s) in
  PeriodicTask.alive 1 m1 = true /\
  PeriodicTask.alive 1 (PeriodicTask.schedule demo_ok 1 m1) = false /\
  forall ops s2,
    MultiCanTransmitterApp.run demo_ok 2 ops (MultiCanTransmitterApp.set_machine m1 s)
    = Some s2 ->
    holds_at idle 1 (MultiCanTransmitterApp.machine s2) /\
    sends_of 1 (PeriodicTask.trace (MultiCanTransmitterApp.machine s2))
    = sends_of 1 (PeriodicTask.trace (MultiCanTransmitterApp.machine s)).
Proof.
  intros s. refine (start_after_stop_is_inert demo_ok 2 1 s _).
  exists (PeriodicTask.mk (Some 7) 256 [1%Z; 2%Z] false (fdiv (Finite 100) 1000) false
            (Some Finished) true).
  split; [vm_compute; reflexivity|]. repeat split.
Defined.

(** X3.  A transmitter only ever sends its own identifier on its own
    bus.  No operation writes [can_id] or [bus], so if the frames the
    task at [a] has sent so far carry its identifier and went to its
    bus (true of a task that has sent nothing), this stays so after any
    sequence of operations and worker steps. *)
Theorem frames_carry_own_identifier
    (inject : nat -> SendOutcome) (fuel : nat) (ops : list MultiCanTransmitterApp.Op)
    (s s' : MultiCanTransmitterApp.t) (a : nat) (x : PeriodicTask.t) :
  PeriodicTask.heap (MultiCanTransmitterApp.machine s) !! a = Some x ->
  Forall (frame_of (PeriodicTask.can_id x) (PeriodicTask.bus x))
    (sends_of a (PeriodicTask.trace (MultiCanTransmitterApp.machine s))) ->
  MultiCanTransmitterApp.run inject fuel ops s = Some s' ->
  exists x',
    PeriodicTask.heap (MultiCanTransmitterApp.machine s') !! a = Some x' /\
    PeriodicTask.can_id x' = PeriodicTask.can_id x /\
    PeriodicTask.bus x' = PeriodicTask.bus x /\
    Forall (frame_of (PeriodicTask.can_id x) (PeriodicTask.bus x))
      (sends_of a (PeriodicTask.trace (MultiCanTransmitterApp.machine s'))).
Proof.
  intros Hx HF Hrun.
  destruct (msteps_frames inject (PeriodicTask.can_id x) (PeriodicTask.bus x) a _ _
              (run_msteps inject fuel ops s s' Hrun)) as ((x' & Hx' & Hc & Hb) & HF').
  - exists x. auto.
  - exact HF.
  - exists x'. auto.
Qed.

Lemma frames_carry_own_identifier_witness :
  exists x',
    PeriodicTask.heap (MultiCanTransmitterApp.machine
       (MultiCanTransmitterApp.set_machine
          (cycles every_third 2 1 (MultiCanTransmitterApp.machine demo_started))
          demo_started)) !! 1 = Some x' /\
    PeriodicTask.can_id x' = 256%Z /\
    PeriodicTask.bus x' = Some 7 /\
    Forall (frame_of 256 (Some 7))
      (sends_of 1 (PeriodicTask.trace (MultiCanTransmitterApp.machine
         (MultiCanTransmitterApp.set_machine
            (cycles every_third 2 1 (MultiCanTransmitterApp.machine demo_started))
            demo_started)))).
Proof.
  apply (frames_carry_own_identifier every_third 2
           (repeat (MultiCanTransmitterApp.OpWorker 1) 6) demo_started _ 1
           (PeriodicTask.mk (Some 7) 256 [1%Z; 2%Z] false (fdiv (Finite 100) 1000) true
              (Some AtWhile) false)).
  - vm_compute. reflexivity.
  - constructor.
  - vm_compute. reflexivity.
Defined.

(** * The main thread writes registered tasks only *)

Section Frame.

Import MultiCanTransmitterApp.

Variable inject : nat -> SendOutcome.
Variable fuel : nat.

Lemma keeps_frame_same s s' :
  machine s' = machine s -> periodic_tasks s' = periodic_tasks s -> keeps_frame s s'.
Proof.
  intros Em Er. unfold keeps_frame, registry_ok, registry_valid, outside.
  rewrite Em, Er. auto.
Qed.

Lemma keeps_frame_trans s1 s2 s3 :
  keeps_frame s1 s2 -> keeps_frame s2 s3 -> keeps_frame s1 s3.
Proof.
  intros (L1 & R1 & F1) (L2 & R2 & F2). split; [lia|]. split; [auto|].
  intros a Ha. destruct (F1 a Ha) as [O1 E1]. destruct (F2 a O1) as [O2 E2].
  split; [assumption | congruence].
Qed.

Lemma find_task_elem can_id s a :
  find_task can_id s = Some a -> a ∈ periodic_tasks s.
Proof.
  unfold find_task. intros H. apply find_some in H as [H _].
  apply list_elem_of_In. exact H.
Qed.

Lemma join_frame n a m m' :
  PeriodicTask.join inject n a m = Some m' ->
  length (PeriodicTask.heap m') = length (PeriodicTask.heap m) /\
  forall b, b <> a -> PeriodicTask.heap m' !! b = PeriodicTask.heap m !! b.
Proof.
  revert m. induction n as [|n IH]; intros m; simpl.
  - destruct (PeriodicTask.alive a m); [discriminate|]. intros [= <-]. auto.
  - destruct (PeriodicTask.alive a m).
    + intros H. destruct (IH _ H) as [L F]. split.
      * rewrite L. apply schedule_length.
      * intros b Hb. rewrite (F b Hb). apply schedule_lookup_ne. exact Hb.
    + intros [= <-]. auto.
Qed.

(** [stop] writes the task it is called on and no other. *)
Lemma stop_frame a m m' :
  PeriodicTask.stop inject fuel a m = Some m' ->
  length (PeriodicTask.heap m') = length (PeriodicTask.heap m) /\
  forall b, b <> a -> PeriodicTask.heap m' !! b = PeriodicTask.heap m !! b.
Proof.
  unfold PeriodicTask.stop. intros H.
  set (m2 := PeriodicTask.update a (PeriodicTask.set_stop_event true)
               (PeriodicTask.update a (PeriodicTask.set_running false) m)) in *.
  assert (H2 : length (PeriodicTask.heap m2) = length (PeriodicTask.heap m) /\
               forall b, b <> a -> PeriodicTask.heap m2 !! b = PeriodicTask.heap m !! b).
  { subst m2. split; [rewrite !update_length; reflexivity|].
    intros b Hb. rewrite !update_lookup_ne by assumption. reflexivity. }
  destruct H2 as [L2 F2].
  assert (H3 : length (PeriodicTask.heap m') = length (PeriodicTask.heap m2) /\
               forall b, b <> a -> PeriodicTask.heap m' !! b = PeriodicTask.heap m2 !! b).
  { destruct (PeriodicTask.heap m2 !! a) as [x|].
    - destruct (PeriodicTask.thread x).
      + eapply join_frame; eassumption.
      + injection H as <-. auto.
    - injection H as <-. auto. }
  destruct H3 as [L3 F3]. split; [congruence|].
  intros b Hb. rewrite (F3 b Hb). apply F2. exact Hb.
Qed.

Lemma stop_each_frame tasks m m' :
  stop_each inject fuel tasks m = Some m' ->
  length (PeriodicTask.heap m') = length (PeriodicTask.heap m) /\
  forall b, b ∉ tasks -> PeriodicTask.heap m' !! b = PeriodicTask.heap m !! b.
Proof.
  revert m. induction tasks as [|a tasks IH]; intros m; simpl.
  - intros [= <-]. auto.
  - destruct (PeriodicTask.stop inject fuel a m) as [m1|] eqn:E; [|discriminate].
    simpl. intros H. destruct (stop_frame _ _ _ E) as [L1 F1].
    destruct (IH _ H) as [L2 F2]. split; [congruence|].
    intros b Hb. apply not_elem_of_cons in Hb as [Hne Hb].
    rewrite (F2 b Hb). apply F1. exact Hne.
Qed.

Lemma remove_first_sublist a l : remove_first a l `sublist_of` l.
Proof.
  induction l as [|b l IH]; simpl; [constructor|].
  destruct (Nat.eqb a b).
  - apply sublist_cons. reflexivity.
  - apply sublist_skip. exact IH.
Qed.

(** The frame of an operation that leaves the heap as long as it was,
    writes registered tasks only and shrinks the registry at most. *)
Lemma keeps_frame_shrink s s' :
  length (PeriodicTask.heap (machine s')) = length (PeriodicTask.heap (machine s)) ->
  (forall b, b ∉ periodic_tasks s ->
     PeriodicTask.heap (machine s') !! b = PeriodicTask.heap (machine s) !! b) ->
  periodic_tasks s' `sublist_of` periodic_tasks s ->
  keeps_frame s s'.
Proof.
  intros L F S. split; [lia|]. split.
  - intros [V N]. split.
    + unfold registry_valid in *. rewrite L. apply Forall_forall. intros b Hb.
      rewrite Forall_forall in V. apply V. eapply elem_of_sublist; eassumption.
    + eapply sublist_NoDup; eassumption.
  - intros a [Ha Hl]. split; [|apply F; exact Ha].
    split; [|lia]. intros Hin. apply Ha. eapply elem_of_sublist; eassumption.
Qed.

(** The frame of an operation that only allocates, and registers what
    it allocates. *)
Lemma keeps_frame_grow s s' l k :
  PeriodicTask.heap (machine s') = PeriodicTask.heap (machine s) ++ l ->
  periodic_tasks s' = k ++ seq (length (PeriodicTask.heap (machine s))) (length l) ->
  (k = periodic_tasks s \/ k = []) ->
  keeps_frame s s'.
Proof.
  intros Eh Er Hk. split; [rewrite Eh, length_app; lia|]. split.
  - intros [V N]. split.
    + unfold registry_valid in *. rewrite Eh, Er, length_app. apply Forall_app. split.
      * destruct Hk as [->| ->]; [|constructor].
        eapply Forall_impl; [exact V|]. simpl. intros; lia.
      * apply Forall_forall. intros b Hb. apply elem_of_seq in Hb. lia.
    + rewrite Er. apply NoDup_app. split; [destruct Hk as [->| ->]; [exact N|constructor]|].
      split; [|apply NoDup_seq].
      intros b Hb Hs. apply elem_of_seq in Hs.
      destruct Hk as [->| ->]; [|inversion Hb].
      unfold registry_valid in V. rewrite Forall_forall in V. specialize (V b Hb). lia.
  - intros a [Ha Hl]. split; [split|].
    + rewrite Er. intros Hin. apply elem_of_app in Hin as [Hin|Hin].
      * destruct Hk as [->| ->]; [auto | inversion Hin].
      * apply elem_of_seq in Hin. lia.
    + rewrite Eh, length_app. lia.
    + rewrite Eh. apply lookup_app_l. exact Hl.
Qed.

Lemma add_message_frame e s : keeps_frame s (add_message e s).
Proof.
  destruct e as [can_id data cycle_ms id_type | err]; [|apply keeps_frame_same; reflexivity].
  destruct (find_task can_id s) as [a|] eqn:Hf.
  - pose proof (find_task_elem _ _ _ Hf) as Hin.
    pose proof Hf as Hfind. unfold find_task in Hfind.
    apply find_some_filter in Hfind as [Hid _].
    destruct (has_id_lookup _ _ _ Hid) as (x & Hx & _).
    destruct (add_message_update can_id data cycle_ms id_type s a x Hf Hx) as (E1 & _ & E3 & _).
    apply keeps_frame_shrink.
    + rewrite E1. apply length_insert.
    + intros b Hb. rewrite E1. apply list_lookup_insert_ne. intros ->. auto.
    + rewrite E3. reflexivity.
  - destruct (add_message_create can_id data cycle_ms id_type s Hf) as (E1 & _ & E3 & _).
    eapply keeps_frame_grow; [exact E1 | exact E3 | auto].
Qed.

Lemma rebuild_frame s : keeps_frame s (rebuild s).
Proof.
  destruct (rebuild_spec s) as (H1 & _ & H3 & _).
  eapply (keeps_frame_grow s _ _ []); [exact H1 | | auto].
  rewrite H3. simpl. rewrite !length_fmap. reflexivity.
Qed.

(** [start_cyclic] either gives up, leaving machine and registry as
    they were, or rebuilds the registry in a state that differs from
    the one it was called in by the bus, the log and the dialogs. *)
Lemma start_cyclic_cases cfg drv s :
  (machine (start_cyclic cfg drv s) = machine s /\
   periodic_tasks (start_cyclic cfg drv s) = periodic_tasks s /\
   bus (start_cyclic cfg drv s) = None) \/
  (exists s1, start_cyclic cfg drv s = rebuild s1 /\
     machine s1 = machine s /\ periodic_tasks s1 = periodic_tasks s /\
     message_table s1 = message_table s /\ is_Some (bus s1)).
Proof.
  unfold start_cyclic. destruct (bus s) as [b|] eqn:Eb.
  - right. exists s. rewrite Eb. eauto 10.
  - pose proof (setup_can_bus_machine cfg drv (log NotInitializedAttempting s)) as Em.
    pose proof (setup_can_bus_periodic_tasks cfg drv (log NotInitializedAttempting s)) as Er.
    pose proof (setup_can_bus_message_table cfg drv (log NotInitializedAttempting s)) as Et.
    pose proof (setup_can_bus_failed cfg drv (log NotInitializedAttempting s)) as Ef.
    pose proof (setup_can_bus_opened cfg drv (log NotInitializedAttempting s)) as Eo.
    destruct (setup_can_bus cfg drv (log NotInitializedAttempting s)) as [[] s1];
      simpl in Em, Er, Et, Ef, Eo.
    + right. exists s1. repeat split; auto.
    + left. destruct (Ef eq_refl) as (H1 & _).
      rewrite log_machine, log_periodic_tasks, log_bus.
      rewrite Em, Er, H1. simpl. auto.
Qed.

Lemma start_cyclic_frame cfg drv s : keeps_frame s (start_cyclic cfg drv s).
Proof.
  destruct (start_cyclic_cases cfg drv s) as [(Em & Er & _) | (s1 & E & Em & Er & _)].
  - apply keeps_frame_same; assumption.
  - rewrite E. eapply keeps_frame_trans; [|apply rebuild_frame].
    apply keeps_frame_same; assumption.
Qed.

Lemma stop_cyclic_frame s s' :
  stop_cyclic inject fuel s = Some s' -> keeps_frame s s'.
Proof.
  unfold stop_cyclic.
  destruct (stop_each inject fuel _ _) as [m|] eqn:E; [|discriminate].
  simpl. intros [= <-]. destruct (stop_each_frame _ _ _ E) as [L F].
  apply keeps_frame_shrink; simpl; [exact L | exact F | apply sublist_nil_l].
Qed.

Lemma remove_item_frame iid s s' :
  remove_item inject fuel iid s = Some s' -> keeps_frame s s'.
Proof.
  unfold remove_item. destruct (List.find _ _) as [[i r]|].
  - destruct (find_task (row_can_id r) s) as [a|] eqn:Hf.
    + destruct (PeriodicTask.stop inject fuel a (machine s)) as [m|] eqn:E; [|discriminate].
      simpl. intros [= <-]. destruct (stop_frame _ _ _ E) as [L F].
      apply keeps_frame_shrink; simpl.
      * exact L.
      * intros b Hb. apply F. intros ->. apply Hb. eapply find_task_elem; eassumption.
      * apply remove_first_sublist.
    + simpl. intros [= <-]. apply keeps_frame_same; reflexivity.
  - intros [= <-]. apply keeps_frame_same; reflexivity.
Qed.

Lemma remove_items_frame sel s s' :
  remove_items inject fuel sel s = Some s' -> keeps_frame s s'.
Proof.
  revert s. induction sel as [|iid sel IH]; intros s; simpl.
  - intros [= <-]. apply keeps_frame_same; reflexivity.
  - destruct (remove_item inject fuel iid s) as [s1|] eqn:E; [|discriminate].
    simpl. intros H. eapply keeps_frame_trans; [eapply remove_item_frame; eassumption|].
    apply IH. exact H.
Qed.

Lemma remove_message_frame sel s s' :
  remove_message inject fuel sel s = Some s' -> keeps_frame s s'.
Proof.
  unfold remove_message. destruct sel as [|iid sel].
  - intros [= <-]. apply keeps_frame_same; reflexivity.
  - destruct (remove_items inject fuel (iid :: sel) s) as [s1|] eqn:E; [|discriminate].
    simpl. intros [= <-]. apply remove_items_frame in E.
    eapply keeps_frame_trans; [exact E|].
    destruct (periodic_tasks s1) eqn:Ep; apply keeps_frame_same; reflexivity.
Qed.

Lemma reset_frame s s' : reset inject fuel s = Some s' -> keeps_frame s s'.
Proof.
  unfold reset.
  destruct (stop_each inject fuel _ _) as [m|] eqn:E; [|discriminate].
  simpl. intros [= <-]. destruct (stop_each_frame _ _ _ E) as [L F].
  apply keeps_frame_shrink.
  - destruct (bus s); exact L.
  - intros b Hb. destruct (bus s); apply F; exact Hb.
  - destruct (bus s); apply sublist_nil_l.
Qed.

Lemma on_closing_frame s s' : on_closing inject fuel s = Some s' -> keeps_frame s s'.
Proof.
  unfold on_closing. cbv zeta. rewrite log_periodic_tasks, log_machine.
  destruct (stop_each inject fuel _ _) as [m|] eqn:E; [|discriminate].
  simpl. intros [= <-]. destruct (stop_each_frame _ _ _ E) as [L F].
  apply keeps_frame_shrink; simpl; [exact L | exact F | reflexivity].
Qed.

(** Every operation of the operator keeps the frame. *)
Lemma exec_frame o s s' :
  (forall a, o <> OpWorker a) ->
  exec inject fuel o s = Some s' -> keeps_frame s s'.
Proof.
  intros Hw. unfold exec.
  destruct (closed s); [intros [= <-]; apply keeps_frame_same; reflexivity|].
  destruct o; simpl.
  - intros [= <-]. apply add_message_frame.
  - apply remove_message_frame.
  - destruct (start_button s); intros [= <-];
      [apply start_cyclic_frame | apply keeps_frame_same; reflexivity].
  - destruct (stop_button s);
      [apply stop_cyclic_frame | intros [= <-]; apply keeps_frame_same; reflexivity].
  - apply reset_frame.
  - apply on_closing_frame.
  - exfalso. eapply Hw. reflexivity.
  - intros [= <-]. apply keeps_frame_same; reflexivity.
Qed.

Lemma classic_worker (o : Op) : (exists a, o = OpWorker a) \/ (forall a, o <> OpWorker a).
Proof. destruct o; try (right; discriminate). left. eauto. Qed.

Lemma exec_registry_ok o s s' :
  registry_ok s -> exec inject fuel o s = Some s' -> registry_ok s'.
Proof.
  intros Hok H. destruct (classic_worker o) as [[a ->] | Hne].
  - unfold exec in H. destruct (closed s); injection H as <-; [exact Hok|].
    destruct Hok as [V N]. split; [|exact N].
    unfold registry_valid in *. simpl. rewrite schedule_length. exact V.
  - destruct (exec_frame o s s' Hne H) as (_ & R & _). auto.
Qed.

End Frame.

Section Dropped.

Import MultiCanTransmitterApp.

Variable inject : nat -> SendOutcome.
Variable fuel : nat.

Lemma same_fields_refl x : same_fields x x.
Proof. repeat split. Qed.

Lemma same_fields_trans x y z : same_fields x y -> same_fields y z -> same_fields x z.
Proof.
  intros (A1 & A2 & A3 & A4 & A5 & A6 & A7) (B1 & B2 & B3 & B4 & B5 & B6 & B7).
  repeat split; congruence.
Qed.

(** A step of the worker writes the thread and nothing else. *)
Lemma run_same_fields r p x : same_fields (fst (PeriodicTask._run r p x)) x.
Proof.
  destruct p; simpl.
  - destruct (PeriodicTask.running x); repeat split.
  - destruct (PeriodicTask.bus x); [|repeat split].
    destruct (payload_ok (PeriodicTask.data x)); repeat split.
  - repeat split.
  - destruct (PeriodicTask._stop_event x); [repeat split|].
    destruct (wait_raises (PeriodicTask.cycle_time x)); repeat split.
  - repeat split.
Qed.

(** A transmitter that is bound and not cancelled stays in its loop. *)
Lemma run_looping r p x :
  PeriodicTask.thread x = Some p -> looping x -> looping (fst (PeriodicTask._run r p x)).
Proof.
  intros Hp (Hr & He & [b Hb] & Hok & Hw & Hl). unfold in_loop in Hl. rewrite Hp in Hl.
  unfold looping, in_loop.
  destruct Hl as [Hl | [Hl | Hl]]; injection Hl as ->; simpl;
    rewrite ?Hr, ?He, ?Hb, ?Hok, ?Hw; simpl; rewrite ?Hr, ?He, ?Hb, ?Hok, ?Hw;
    eauto 12.
Qed.

Lemma exec_dropped o s s' a x :
  outside a s ->
  PeriodicTask.heap (machine s) !! a = Some x ->
  exec inject fuel o s = Some s' ->
  outside a s' /\
  exists x', PeriodicTask.heap (machine s') !! a = Some x' /\
    same_fields x' x /\ (looping x -> looping x').
Proof.
  intros Hout Hx H. destruct (classic_worker o) as [[b ->] | Hne].
  - unfold exec in H. destruct (closed s); injection H as <-.
    { split; [exact Hout|]. exists x.
      split; [exact Hx|]. split; [apply same_fields_refl | auto]. }
    simpl. split.
    { destruct Hout as [Ha Hl]. split; [exact Ha|]. simpl. rewrite schedule_length. exact Hl. }
    destruct (decide (a = b)) as [<-|Hab].
    + destruct (PeriodicTask.thread x) as [p|] eqn:Ep.
      * destruct (schedule_at inject a (machine s) x p Hx Ep) as [H1 _].
        eexists. split; [exact H1|]. split; [apply run_same_fields|].
        apply run_looping. exact Ep.
      * rewrite (schedule_no_thread inject a (machine s) x Hx Ep).
        exists x. split; [exact Hx|]. split; [apply same_fields_refl | auto].
    + rewrite schedule_lookup_ne by assumption.
      exists x. split; [exact Hx|]. split; [apply same_fields_refl | auto].
  - destruct (exec_frame inject fuel o s s' Hne H) as (_ & _ & F).
    destruct (F a Hout) as [Hout' E]. split; [exact Hout'|].
    exists x. split; [congruence|]. split; [apply same_fields_refl | auto].
Qed.

Lemma run_registry_ok ops s s' :
  registry_ok s -> run inject fuel ops s = Some s' -> registry_ok s'.
Proof.
  revert s. induction ops as [|o ops IH]; intros s Hok; simpl.
  - intros [= <-]. exact Hok.
  - destruct (exec inject fuel o s) as [s1|] eqn:E; [|discriminate].
    simpl. apply IH. eapply exec_registry_ok; eassumption.
Qed.

End Dropped.

(** X4.  The registry is always well formed.  In the initial state,
    and in every state reached from a well-formed one by operations of
    the operator and steps of workers, every entry of the registry is
    the address of an allocated task and no task is listed twice. *)
Theorem registry_stays_well_formed
    (inject : nat -> SendOutcome) (fuel : nat) (ops : list MultiCanTransmitterApp.Op)
    (s s' : MultiCanTransmitterApp.t) :
  registry_ok s ->
  MultiCanTransmitterApp.run inject fuel ops s = Some s' ->
  registry_ok s' /\ registry_ok MultiCanTransmitterApp.__init__.
Proof.
  intros Hok Hrun. split; [eapply run_registry_ok; eassumption|].
  split; constructor.
Qed.

Lemma registry_stays_well_formed_witness :
  registry_ok (MultiCanTransmitterApp.add_message demo_entry
                 (MultiCanTransmitterApp.start_cyclic demo_cfg demo_drv
                    MultiCanTransmitterApp.__init__)) /\
  registry_ok MultiCanTransmitterApp.__init__.
Proof.
  refine (registry_stays_well_formed demo_ok 2
            [MultiCanTransmitterApp.OpStart demo_cfg demo_drv;
             MultiCanTransmitterApp.OpAdd demo_entry]
            MultiCanTransmitterApp.__init__ _ _ _).
  - split; constructor.
  - vm_compute. reflexivity.
Defined.

(** X5.  A transmitter that is not in the registry is out of reach of
    the application.  Whatever the operator does afterwards (add,
    remove, start, stop, reset, close) and however the workers are
    scheduled, the task stays outside the registry and the main thread
    never writes it: its bus, identifier, payload, cycle time, and its
    [running] flag and stop event are what they were.  In particular,
    if it transmits (bound to a bus, not cancelled, with a payload of
    bytes and a cycle time the timed wait accepts, its thread in the
    loop), it goes on transmitting as long as the application has not
    been closed: short of ending the process, nothing stops it. *)
Theorem dropped_transmitter_cannot_be_stopped
    (inject : nat -> SendOutcome) (fuel : nat) (ops : list MultiCanTransmitterApp.Op)
    (s s' : MultiCanTransmitterApp.t) (a : nat) (x : PeriodicTask.t) :
  outside a s ->
  PeriodicTask.heap (MultiCanTransmitterApp.machine s) !! a = Some x ->
  MultiCanTransmitterApp.run inject fuel ops s = Some s' ->
  outside a s' /\
  exists x',
    PeriodicTask.heap (MultiCanTransmitterApp.machine s') !! a = Some x' /\
    same_fields x' x /\
    (looping x -> MultiCanTransmitterApp.closed s' = false -> looping x').
Proof.
  intros Hout Hx Hrun.
  assert (H : outside a s' /\
              exists x',
                PeriodicTask.heap (MultiCanTransmitterApp.machine s') !! a = Some x' /\
                same_fields x' x /\ (looping x -> looping x')).
  { revert s x Hout Hx Hrun.
    induction ops as [|o ops IH]; intros s x Hout Hx; simpl.
    - intros [= <-]. split; [exact Hout|]. exists x.
      split; [exact Hx|]. split; [apply same_fields_refl | auto].
    - destruct (MultiCanTransmitterApp.exec inject fuel o s) as [s1|] eqn:E; [|discriminate].
      simpl. intros Hrun.
      destruct (exec_dropped inject fuel o s s1 a x Hout Hx E)
        as (Hout1 & x1 & Hx1 & S1 & L1).
      destruct (IH s1 x1 Hout1 Hx1 Hrun) as (Hout' & x' & Hx' & S' & L').
      split; [exact Hout'|]. exists x'. split; [exact Hx'|].
      split; [eapply same_fields_trans; eassumption | auto]. }
  destruct H as (Hout' & x' & Hx' & S' & L').
  split; [exact Hout'|]. exists x'. split; [exact Hx'|]. split; [exact S' | auto].
Qed.

Lemma dropped_transmitter_cannot_be_stopped_witness :
  exists s',
    MultiCanTransmitterApp.run demo_ok 2
      [MultiCanTransmitterApp.OpStop; MultiCanTransmitterApp.OpWorker 0;
       MultiCanTransmitterApp.OpReset; MultiCanTransmitterApp.OpWorker 0]
      demo_dropped = Some s' /\
    outside 0 s' /\
    exists x',
      PeriodicTask.heap (MultiCanTransmitterApp.machine s') !! 0 = Some x' /\
      (MultiCanTransmitterApp.closed s' = false -> looping x').
Proof.
  destruct (MultiCanTransmitterApp.run demo_ok 2
              [MultiCanTransmitterApp.OpStop; MultiCanTransmitterApp.OpWorker 0;
               MultiCanTransmitterApp.OpReset; MultiCanTransmitterApp.OpWorker 0]
              demo_dropped) as [s'|] eqn:E; [|vm_compute in E; discriminate].
  exists s'. split; [reflexivity|].
  destruct (dropped_transmitter_cannot_be_stopped demo_ok 2
              [MultiCanTransmitterApp.OpStop; MultiCanTransmitterApp.OpWorker 0;
               MultiCanTransmitterApp.OpReset; MultiCanTransmitterApp.OpWorker 0]
              demo_dropped s' 0
              (PeriodicTask.mk (Some 7) 256 [1%Z; 2%Z] false (fdiv (Finite 100) 1000) true
                 (Some AtWhile) false)) as (H1 & x' & H2 & _ & H3).
  - split; [vm_compute; intros H; inversion H as [|? ? ? H']; inversion H' | vm_compute; lia].
  - vm_compute. reflexivity.
  - exact E.
  - split; [exact H1|]. exists x'. split; [exact H2|]. apply H3.
    repeat split; [eexists; reflexivity | left; reflexivity].
Defined.

(** * The log, the bus setup and the table *)

Section LogAndSetup.

Import MultiCanTransmitterApp.

Variable inject : nat -> SendOutcome.
Variable fuel : nat.

Lemma log_bounded_log msg s : log_bounded s -> log_bounded (log msg s).
Proof.
  unfold log_bounded, log, _append_log. simpl. intros H.
  assert (L : length (log_text s ++ [(now s, msg)]) = S (length (log_text s)))
    by (rewrite length_app; simpl; lia).
  destruct (Nat.ltb_spec 1000 (length (log_text s ++ [(now s, msg)]))) as [Hlt|Hle].
  - destruct (log_text s ++ [(now s, msg)]); simpl in *; lia.
  - exact Hle.
Qed.

(** The line just logged is the last one. *)
Lemma log_last msg s : last (log_text (log msg s)) = Some (now s, msg).
Proof.
  unfold log, _append_log. simpl.
  destruct (Nat.ltb 1000 (length (log_text s ++ [(now s, msg)]))) eqn:E.
  - apply Nat.ltb_lt in E. rewrite length_app in E. simpl in E.
    destruct (log_text s) as [|l0 l]; simpl in *; [lia|]. apply last_snoc.
  - apply last_snoc.
Qed.

Lemma log_bounded_showwarning title text s : log_bounded s -> log_bounded (showwarning title text s).
Proof. intros H. exact H. Qed.

Lemma log_bounded_showerror title text s : log_bounded s -> log_bounded (showerror title text s).
Proof. intros H. exact H. Qed.

Lemma log_bounded_insert_row r s : log_bounded s -> log_bounded (insert_row r s).
Proof. intros H. exact H. Qed.

Lemma log_bounded_spawn can_id data ext ct s : log_bounded s -> log_bounded (spawn can_id data ext ct s).
Proof. intros H. exact H. Qed.

Lemma log_bounded_set_machine v s : log_bounded s -> log_bounded (set_machine v s).
Proof. intros H. exact H. Qed.

Lemma log_bounded_set_periodic_tasks v s : log_bounded s -> log_bounded (set_periodic_tasks v s).
Proof. intros H. exact H. Qed.

Lemma log_bounded_set_message_table v s : log_bounded s -> log_bounded (set_message_table v s).
Proof. intros H. exact H. Qed.

Lemma log_bounded_set_bus v s : log_bounded s -> log_bounded (set_bus v s).
Proof. intros H. exact H. Qed.

Lemma log_bounded_set_start_button v s : log_bounded s -> log_bounded (set_start_button v s).
Proof. intros H. exact H. Qed.

Lemma log_bounded_set_stop_button v s : log_bounded s -> log_bounded (set_stop_button v s).
Proof. intros H. exact H. Qed.

Lemma log_bounded_set_now v s : log_bounded s -> log_bounded (set_now v s).
Proof. intros H. exact H. Qed.

Lemma log_bounded_set_closed v s : log_bounded s -> log_bounded (set_closed v s).
Proof. intros H. exact H. Qed.

Ltac log_peel :=
  repeat first
    [ apply log_bounded_log
    | apply log_bounded_showwarning
    | apply log_bounded_showerror
    | apply log_bounded_insert_row
    | apply log_bounded_spawn
    | apply log_bounded_set_machine
    | apply log_bounded_set_periodic_tasks
    | apply log_bounded_set_message_table
    | apply log_bounded_set_bus
    | apply log_bounded_set_start_button
    | apply log_bounded_set_stop_button
    | apply log_bounded_set_now
    | apply log_bounded_set_closed
    ]; try assumption.

Lemma setup_can_bus_log_bounded cfg drv s :
  log_bounded s -> log_bounded (snd (setup_can_bus cfg drv s)).
Proof.
  intros H. unfold setup_can_bus. destruct (bus s); [exact H|].
  destruct (String.eqb _ _); [simpl; log_peel|].
  destruct (String.eqb _ _); [simpl; log_peel|].
  destruct (drv _ _ _); simpl; log_peel.
Qed.

Lemma add_message_log_bounded e s : log_bounded s -> log_bounded (add_message e s).
Proof.
  intros H. destruct e as [can_id data cycle_ms id_type | err].
  - unfold add_message. cbv zeta. apply log_bounded_insert_row.
    destruct (find_task can_id _); log_peel.
  - unfold add_message. log_peel.
Qed.

Lemma start_rows_log_bounded rows s : log_bounded s -> log_bounded (start_rows rows s).
Proof.
  revert s. induction rows as [|r rows IH]; intros s H; [exact H|].
  simpl. apply IH. unfold start_row. cbv zeta.
  destruct (int_of (row_cycle_time r)); log_peel.
Qed.

Lemma start_cyclic_log_bounded cfg drv s :
  log_bounded s -> log_bounded (start_cyclic cfg drv s).
Proof.
  intros H.
  assert (R : forall s0, log_bounded s0 -> log_bounded (rebuild s0)).
  { intros s0 H0. unfold rebuild. log_peel. apply start_rows_log_bounded. log_peel. }
  unfold start_cyclic. destruct (bus s); [apply R; exact H|].
  pose proof (setup_can_bus_log_bounded cfg drv (log NotInitializedAttempting s)
                (log_bounded_log _ _ H)) as H1.
  destruct (setup_can_bus cfg drv _) as [[] s1]; simpl in H1.
  - apply R. exact H1.
  - log_peel.
Qed.

Lemma remove_item_log_bounded iid s s' :
  log_bounded s -> remove_item inject fuel iid s = Some s' -> log_bounded s'.
Proof.
  intros H. unfold remove_item. destruct (List.find _ _) as [[i r]|].
  - destruct (find_task _ s) as [a|].
    + destruct (PeriodicTask.stop inject fuel a (machine s)) as [m|]; [|discriminate].
      simpl. intros [= <-]. log_peel.
    + simpl. intros [= <-]. log_peel.
  - intros [= <-]. log_peel.
Qed.

Lemma remove_items_log_bounded sel s s' :
  log_bounded s -> remove_items inject fuel sel s = Some s' -> log_bounded s'.
Proof.
  revert s. induction sel as [|iid sel IH]; intros s H; simpl.
  - intros [= <-]. exact H.
  - destruct (remove_item inject fuel iid s) as [s1|] eqn:E; [|discriminate].
    simpl. apply IH. eapply remove_item_log_bounded; eassumption.
Qed.

Lemma exec_log_bounded o s s' :
  log_bounded s -> exec inject fuel o s = Some s' -> log_bounded s'.
Proof.
  intros H. unfold exec. destruct (closed s); [intros [= <-]; exact H|].
  destruct o; simpl.
  - intros [= <-]. apply add_message_log_bounded. exact H.
  - unfold remove_message. destruct selected_items as [|iid sel].
    + intros [= <-]. log_peel.
    + destruct (remove_items inject fuel (iid :: sel) s) as [s1|] eqn:E; [|discriminate].
      simpl. intros [= <-]. apply (remove_items_log_bounded _ _ _ H) in E.
      destruct (periodic_tasks s1); log_peel.
  - destruct (start_button s); intros [= <-];
      [apply start_cyclic_log_bounded|]; exact H.
  - destruct (stop_button s); [|intros [= <-]; exact H].
    unfold stop_cyclic. destruct (stop_each inject fuel _ _); [|discriminate].
    simpl. intros [= <-]. log_peel.
  - unfold reset. destruct (stop_each inject fuel _ _); [|discriminate].
    simpl. intros [= <-]. destruct (bus s); simpl; log_peel.
  - unfold on_closing. destruct (stop_each inject fuel _ _); [|discriminate].
    simpl. intros [= <-]. log_peel.
  - intros [= <-]. log_peel.
  - intros [= <-]. log_peel.
Qed.

Lemma setup_can_bus_dialogs cfg drv s :
  let r := setup_can_bus cfg drv s in
  (fst r = true -> dialogs (snd r) = dialogs s) /\
  (fst r = false -> exists d, dialogs (snd r) = dialogs s ++ [d]).
Proof.
  unfold setup_can_bus. destruct (bus s); [simpl; split; [auto | discriminate]|].
  destruct (String.eqb _ _); [simpl; split; [discriminate | eauto]|].
  destruct (String.eqb _ _); [simpl; split; [discriminate | eauto]|].
  destruct (drv _ _ _); simpl; split; try discriminate; eauto.
Qed.

(** What [start_cyclic] does when it has no bus and cannot open one. *)
Lemma start_cyclic_failed cfg drv s :
  bus s = None -> fst (setup_can_bus cfg drv s) = false ->
  bus (start_cyclic cfg drv s) = None /\
  machine (start_cyclic cfg drv s) = machine s /\
  periodic_tasks (start_cyclic cfg drv s) = periodic_tasks s.
Proof.
  intros Hb Hf.
  destruct (start_cyclic_cases cfg drv s) as [(Em & Er & E0) | (s1 & E & Em & Er & Et & Hs)];
    [auto|].
  exfalso. revert E Hs. unfold start_cyclic. rewrite Hb.
  pose proof (setup_can_bus_log cfg drv NotInitializedAttempting s) as El.
  rewrite Hf in El.
  pose proof (setup_can_bus_failed cfg drv (log NotInitializedAttempting s) El) as Ef.
  destruct (setup_can_bus cfg drv (log NotInitializedAttempting s)) as [ok s2].
  simpl in El, Ef. subst ok. destruct Ef as (H1 & _).
  intros E [b Hs]. apply (f_equal bus) in E.
  destruct (rebuild_spec s1) as (_ & _ & _ & H4). rewrite H4, Hs in E.
  rewrite log_bus, H1 in E. simpl in E. rewrite Hb in E. discriminate.
Qed.

(** The rows of the table after a sequence of calls of [add_message]. *)
Lemma add_message_table e s :
  message_table (add_message e s)
  = message_table s ++ ((fun r => (next_item s, r)) <$> row_of_entry e) /\
  next_item (add_message e s) = next_item s + length (row_of_entry e).
Proof.
  destruct e as [can_id data cycle_ms id_type | err].
  - unfold add_message. destruct (find_task can_id _); simpl; split; auto; lia.
  - simpl. rewrite app_nil_r. split; [reflexivity | lia].
Qed.

Lemma add_messages_rows entries s :
  (message_table (add_messages entries s)).*2
  = (message_table s).*2 ++ flat_map row_of_entry entries.
Proof.
  revert s. induction entries as [|e entries IH]; intros s; simpl.
  - rewrite app_nil_r. reflexivity.
  - unfold add_messages in *. simpl. rewrite IH.
    destruct (add_message_table e s) as [E _]. rewrite E.
    rewrite fmap_app, <- app_assoc. f_equal. f_equal.
    rewrite <- list_fmap_compose. simpl. apply list_fmap_id.
Qed.

End LogAndSetup.

(** X6.  The log holds at most 1000 lines, counting one line per
    message.  [_append_log] drops the oldest line when a new one makes
    the log longer than that, so a log within the bound stays within
    it under every operation and every worker step; and the message
    passed to [log], stamped with the current time, is always the last
    line. *)
Theorem log_stays_bounded
    (inject : nat -> SendOutcome) (fuel : nat) (ops : list MultiCanTransmitterApp.Op)
    (s s' : MultiCanTransmitterApp.t) :
  log_bounded s ->
  MultiCanTransmitterApp.run inject fuel ops s = Some s' ->
  log_bounded s' /\
  forall msg,
    last (MultiCanTransmitterApp.log_text (MultiCanTransmitterApp.log msg s'))
    = Some (MultiCanTransmitterApp.now s', msg) /\
    log_bounded (MultiCanTransmitterApp.log msg s').
Proof.
  intros H Hrun.
  assert (Hb : log_bounded s').
  { revert s H Hrun. induction ops as [|o ops IH]; intros s H; simpl.
    - intros [= <-]. exact H.
    - destruct (MultiCanTransmitterApp.exec inject fuel o s) as [s1|] eqn:E; [|discriminate].
      simpl. apply IH. eapply exec_log_bounded; eassumption. }
  split; [exact Hb|]. intros msg. split; [apply log_last | apply log_bounded_log; exact Hb].
Qed.

Lemma log_stays_bounded_witness :
  log_bounded demo_started /\
  forall msg,
    last (MultiCanTransmitterApp.log_text (MultiCanTransmitterApp.log msg demo_started))
    = Some (MultiCanTransmitterApp.now demo_started, msg) /\
    log_bounded (MultiCanTransmitterApp.log msg demo_started).
Proof.
  refine (log_stays_bounded demo_ok 2
            [MultiCanTransmitterApp.OpAdd demo_entry;
             MultiCanTransmitterApp.OpStart demo_cfg demo_drv]
            MultiCanTransmitterApp.__init__ demo_started _ _).
  - unfold log_bounded. simpl. lia.
  - vm_compute. reflexivity.
Defined.

(** X7.  The result of [setup_can_bus] tells whether the application
    holds a bus.  It returns [True] exactly when a bus is held
    afterwards; with a bus already held nothing happens at all (the
    driver is not called); a failure leaves the bus absent and shows
    exactly one dialog, a success shows none; and in no case are the
    tasks, the registry or the table touched. *)
Theorem setup_can_bus_result
    (cfg : BusConfig) (drv : Driver) (s : MultiCanTransmitterApp.t) :
  let r := MultiCanTransmitterApp.setup_can_bus cfg drv s in
  (fst r = true <-> is_Some (MultiCanTransmitterApp.bus (snd r))) /\
  (is_Some (MultiCanTransmitterApp.bus s) -> r = (true, s)) /\
  (fst r = true ->
   MultiCanTransmitterApp.dialogs (snd r) = MultiCanTransmitterApp.dialogs s) /\
  (fst r = false ->
   MultiCanTransmitterApp.bus (snd r) = None /\
   exists d, MultiCanTransmitterApp.dialogs (snd r)
             = MultiCanTransmitterApp.dialogs s ++ [d]) /\
  MultiCanTransmitterApp.machine (snd r) = MultiCanTransmitterApp.machine s /\
  MultiCanTransmitterApp.periodic_tasks (snd r) = MultiCanTransmitterApp.periodic_tasks s /\
  MultiCanTransmitterApp.message_table (snd r) = MultiCanTransmitterApp.message_table s.
Proof.
  intros r. subst r.
  destruct (setup_can_bus_dialogs cfg drv s) as [D1 D2].
  assert (Hfail : fst (MultiCanTransmitterApp.setup_can_bus cfg drv s) = false ->
                  MultiCanTransmitterApp.bus
                    (snd (MultiCanTransmitterApp.setup_can_bus cfg drv s)) = None).
  { intros Hf. destruct (setup_can_bus_failed cfg drv s Hf) as (H1 & _).
    rewrite H1. revert Hf. unfold MultiCanTransmitterApp.setup_can_bus.
    destruct (MultiCanTransmitterApp.bus s); [discriminate | reflexivity]. }
  split; [|split; [|split; [exact D1|split]]].
  - split; [apply setup_can_bus_opened|].
    intros [b Hb].
    destruct (fst (MultiCanTransmitterApp.setup_can_bus cfg drv s)) eqn:E; [reflexivity|].
    rewrite (Hfail eq_refl) in Hb. discriminate.
  - intros [b Hb]. unfold MultiCanTransmitterApp.setup_can_bus. rewrite Hb. reflexivity.
  - intros Hf. split; [apply Hfail; exact Hf | apply D2; exact Hf].
  - split; [apply setup_can_bus_machine|].
    split; [apply setup_can_bus_periodic_tasks | apply setup_can_bus_message_table].
Qed.

(** X8.  With no device detected the bus cannot be opened.  When the
    enumeration yields no channel, [get_available_devices] logs it and
    returns the single placeholder "Manual Input (Set Channel)"; with
    that channel selected [setup_can_bus] reads the field
    [manual_channel_entry], which does not exist, and fails whatever
    the driver would answer; so [start_cyclic] gives up: no bus, no
    transmitter created, registry unchanged. *)
Theorem no_device_means_no_bus
    (interfaces : list Config) (cfg : BusConfig) (drv : Driver)
    (s : MultiCanTransmitterApp.t) :
  snd (get_available_devices interfaces) = true ->
  channel cfg ∈ fst (get_available_devices interfaces) ->
  MultiCanTransmitterApp.bus s = None ->
  fst (get_available_devices interfaces) = ["Manual Input (Set Channel)"%string] /\
  fst (MultiCanTransmitterApp.setup_can_bus cfg drv s) = false /\
  MultiCanTransmitterApp.bus (MultiCanTransmitterApp.start_cyclic cfg drv s) = None /\
  MultiCanTransmitterApp.machine (MultiCanTransmitterApp.start_cyclic cfg drv s)
  = MultiCanTransmitterApp.machine s /\
  MultiCanTransmitterApp.periodic_tasks (MultiCanTransmitterApp.start_cyclic cfg drv s)
  = MultiCanTransmitterApp.periodic_tasks s.
Proof.
  intros Hlog Hin Hb.
  assert (Hd : fst (get_available_devices interfaces) = ["Manual Input (Set Channel)"%string]).
  { revert Hlog. unfold get_available_devices.
    destruct (flat_map _ interfaces); [reflexivity | discriminate]. }
  rewrite Hd in Hin. apply list_elem_of_singleton in Hin.
  assert (Hf : fst (MultiCanTransmitterApp.setup_can_bus cfg drv s) = false).
  { unfold MultiCanTransmitterApp.setup_can_bus. rewrite Hb, Hin. reflexivity. }
  split; [exact Hd|]. split; [exact Hf|].
  apply start_cyclic_failed; assumption.
Qed.

Lemma no_device_means_no_bus_witness :
  fst (get_available_devices [DictConfig (Some (Several [])) None])
  = ["Manual Input (Set Channel)"%string] /\
  fst (MultiCanTransmitterApp.setup_can_bus
         (mkBusConfig "Manual Input (Set Channel)" "socketcan" 250000) demo_drv demo_added)
  = false /\
  MultiCanTransmitterApp.bus
    (MultiCanTransmitterApp.start_cyclic
       (mkBusConfig "Manual Input (Set Channel)" "socketcan" 250000) demo_drv demo_added)
  = None /\
  MultiCanTransmitterApp.machine
    (MultiCanTransmitterApp.start_cyclic
       (mkBusConfig "Manual Input (Set Channel)" "socketcan" 250000) demo_drv demo_added)
  = MultiCanTransmitterApp.machine demo_added /\
  MultiCanTransmitterApp.periodic_tasks
    (MultiCanTransmitterApp.start_cyclic
       (mkBusConfig "Manual Input (Set Channel)" "socketcan" 250000) demo_drv demo_added)
  = MultiCanTransmitterApp.periodic_tasks demo_added.
Proof.
  refine (no_device_means_no_bus [DictConfig (Some (Several [])) None]
            (mkBusConfig "Manual Input (Set Channel)" "socketcan" 250000)
            demo_drv demo_added _ _ _).
  - reflexivity.
  - vm_compute. constructor.
  - reflexivity.
Defined.

(** * Rows, removal and reset *)

Section TableFacts.

Import MultiCanTransmitterApp.

Variable inject : nat -> SendOutcome.
Variable fuel : nat.

Lemma row_of_entry_length entries :
  length (flat_map row_of_entry entries) = parsed_count entries.
Proof.
  unfold parsed_count. induction entries as [|e entries IH]; [reflexivity|].
  simpl. rewrite length_app, filter_cons, IH. destruct e; reflexivity.
Qed.

Lemma row_of_entry_filter can_id entries :
  length (filter (fun r => row_can_id r = can_id) (flat_map row_of_entry entries))
  = length (filter (fun e => entry_id e = Some can_id) entries).
Proof.
  induction entries as [|e entries IH]; [reflexivity|].
  simpl. rewrite filter_app, length_app, IH, (filter_cons _ e).
  destruct e as [id0 d c ty | err]; cbn [row_of_entry entry_id].
  - rewrite filter_cons, filter_nil. cbn [row_can_id].
    repeat case_decide; simplify_eq; reflexivity.
  - rewrite filter_nil. case_decide; [discriminate | reflexivity].
Qed.

(** Among the rows that a sequence of entries leaves in the table,
    those that [start_cyclic] makes a task of. *)
Lemma row_of_entry_started can_id entries :
  length (filter (fun r => row_can_id r = can_id)
            (started_rows (flat_map row_of_entry entries)))
  = length (filter (fun e => entry_id e = Some can_id /\ entry_starts e = true) entries).
Proof.
  induction entries as [|e entries IH]; [reflexivity|].
  simpl. unfold started_rows in *. rewrite filter_app, filter_app, length_app, IH.
  rewrite (filter_cons _ e). clear IH.
  destruct e as [id0 d c ty | err]; cbn [row_of_entry entry_id entry_starts].
  - rewrite (filter_cons (fun r => row_converts r = true)), filter_nil.
    destruct c as [q| | |].
    + rewrite decide_True by reflexivity.
      rewrite filter_cons, filter_nil. cbn [row_can_id].
      destruct (decide (id0 = can_id)) as [->|Hne].
      * rewrite decide_True by auto. reflexivity.
      * rewrite decide_False by (intros [[=] _]; congruence). reflexivity.
    + rewrite decide_False by discriminate.
      rewrite decide_False by (intros [_ [=]]). reflexivity.
    + rewrite decide_False by discriminate.
      rewrite decide_False by (intros [_ [=]]). reflexivity.
    + rewrite decide_False by discriminate.
      rewrite decide_False by (intros [_ [=]]). reflexivity.
  - rewrite !filter_nil. rewrite decide_False by (intros [[=] _]). reflexivity.
Qed.

(** The registry after [rebuild]: as many transmitters with an
    identifier as the table has rows with it that convert. *)
Lemma rebuild_count s can_id :
  count_id can_id (rebuild s)
  = length (filter (fun r => row_can_id r = can_id) (started_rows (message_table s).*2)).
Proof.
  destruct (rebuild_spec s) as (H1 & _ & H3 & _).
  unfold count_id. rewrite H1, H3.
  rewrite <- (length_fmap (task_of_row (bus s)) (started_rows (message_table s).*2)).
  rewrite count_fresh, count_rows. reflexivity.
Qed.

Lemma remove_first_fresh a l : a ∉ l -> remove_first a (l ++ [a]) = l.
Proof.
  induction l as [|b l IH]; simpl; intros H.
  - rewrite Nat.eqb_refl. reflexivity.
  - apply not_elem_of_cons in H as [Hne H].
    destruct (Nat.eqb_spec a b); [congruence|]. rewrite IH by assumption. reflexivity.
Qed.

Lemma find_fresh_row (tbl : list (nat * Row)) n r :
  Forall (fun ir => fst ir < n) tbl ->
  List.find (fun ir => Nat.eqb (fst ir) n) (tbl ++ [(n, r)]) = Some (n, r) /\
  filter (fun ir => fst ir <> n) (tbl ++ [(n, r)]) = tbl.
Proof.
  induction 1 as [|[i q] tbl Hi _ [IH1 IH2]]; simpl.
  - rewrite Nat.eqb_refl. split; [reflexivity|].
    rewrite filter_cons. simpl. rewrite decide_False by auto. reflexivity.
  - simpl in Hi. destruct (Nat.eqb_spec i n); [lia|]. split; [exact IH1|].
    rewrite filter_cons. simpl. rewrite decide_True by assumption. rewrite IH2. reflexivity.
Qed.

(** [remove_item], [remove_items] and [remove_message] return when
    [join] is given two steps, and leave the bus, the Start button and
    the events of the main thread alone. *)
Lemma remove_item_returns iid s :
  2 <= fuel ->
  exists s', remove_item inject fuel iid s = Some s' /\
    bus s' = bus s /\ start_button s' = start_button s /\
    stop_button s' = stop_button s /\ main_events s' = main_events s.
Proof.
  intros Hf. unfold remove_item. destruct (List.find _ _) as [[i r]|].
  - destruct (find_task _ s) as [a|].
    + destruct (stop_spec inject fuel a (machine s) Hf) as (m & E & _ & _).
      rewrite E. simpl. eexists. split; [reflexivity|]. simpl.
      repeat split. unfold main_events. simpl. eapply stop_main_events; eassumption.
    + simpl. eexists. split; [reflexivity|]. repeat split.
  - eexists. split; [reflexivity|]. repeat split.
Qed.

Lemma remove_items_returns sel s :
  2 <= fuel ->
  exists s', remove_items inject fuel sel s = Some s' /\
    bus s' = bus s /\ start_button s' = start_button s /\
    stop_button s' = stop_button s /\ main_events s' = main_events s.
Proof.
  intros Hf. revert s. induction sel as [|iid sel IH]; intros s; simpl.
  - exists s. auto.
  - destruct (remove_item_returns iid s Hf) as (s1 & E & B1 & S1 & T1 & M1).
    rewrite E. simpl. destruct (IH s1) as (s2 & E2 & B2 & S2 & T2 & M2).
    exists s2. split; [exact E2|]. repeat split; congruence.
Qed.

End TableFacts.

(** X9.  [add_message] appends a row to the table on every call that
    parses - on the update path too, where the earlier row for the
    identifier stays - and none on a call that does not parse.  After a
    sequence of calls the rows are the old ones followed by one row per
    parsed entry, in order. *)
Theorem add_message_always_adds_a_row
    (entries : list Entry) (s : MultiCanTransmitterApp.t) :
  (MultiCanTransmitterApp.message_table (add_messages entries s)).*2
  = (MultiCanTransmitterApp.message_table s).*2 ++ flat_map row_of_entry entries /\
  length (MultiCanTransmitterApp.message_table (add_messages entries s))
  = length (MultiCanTransmitterApp.message_table s) + parsed_count entries.
Proof.
  pose proof (add_messages_rows entries s) as E. split; [exact E|].
  apply (f_equal length) in E.
  rewrite length_app, !length_fmap, row_of_entry_length in E. exact E.
Qed.

(** X10.  Adding an identifier n times with finite cycle times and
    then starting gives n transmitters with that identifier.  From the
    initial state, [add_message] keeps at most one transmitter per
    identifier in the registry; [start_cyclic], when it has a bus,
    then creates one transmitter per row whose cycle time converts to
    an integer, so the registry holds as many transmitters with an
    identifier as there were parsed entries with it and a finite cycle
    time (an entry whose cycle time is an infinity or a NaN leaves a
    row that [start_cyclic] skips). *)
Theorem repeated_add_then_start
    (entries : list Entry) (cfg : BusConfig) (drv : Driver) (can_id : Z) (b : Bus) :
  let s := add_messages entries MultiCanTransmitterApp.__init__ in
  MultiCanTransmitterApp.bus (MultiCanTransmitterApp.start_cyclic cfg drv s) = Some b ->
  count_id can_id s <= 1 /\
  count_id can_id (MultiCanTransmitterApp.start_cyclic cfg drv s)
  = length (filter (fun e => entry_id e = Some can_id /\ entry_starts e = true) entries).
Proof.
  intros s Hb. split; [apply add_messages_unique|].
  destruct (start_cyclic_cases cfg drv s) as [(_ & _ & E0) | (s1 & E & Em & Er & Et & Hs)].
  - rewrite E0 in Hb. discriminate.
  - rewrite E, rebuild_count, Et. subst s.
    rewrite add_messages_rows.
    change ((MultiCanTransmitterApp.message_table MultiCanTransmitterApp.__init__).*2)
      with (@nil Row).
    rewrite app_nil_l. apply row_of_entry_started.
Qed.

Lemma repeated_add_then_start_witness :
  count_id 256 (add_messages [demo_entry; demo_entry; demo_entry]
                  MultiCanTransmitterApp.__init__) <= 1 /\
  count_id 256 (MultiCanTransmitterApp.start_cyclic demo_cfg demo_drv
                  (add_messages [demo_entry; demo_entry; demo_entry]
                     MultiCanTransmitterApp.__init__)) = 3.
Proof.
  refine (repeated_add_then_start [demo_entry; demo_entry; demo_entry]
            demo_cfg demo_drv 256 7 _).
  vm_compute. reflexivity.
Defined.

(** X11.  [remove_message] with a selection returns (given two worker
    steps per [join]); it leaves the bus open and the Start button as
    it was, and disables the Stop button exactly when the registry is
    empty afterwards.  So removing the last transmitter after a start
    leaves both Start and Stop disabled. *)
Theorem remove_message_buttons
    (inject : nat -> SendOutcome) (fuel : nat) (selected_items : list nat)
    (s : MultiCanTransmitterApp.t) :
  2 <= fuel ->
  selected_items <> [] ->
  exists s',
    MultiCanTransmitterApp.remove_message inject fuel selected_items s = Some s' /\
    MultiCanTransmitterApp.bus s' = MultiCanTransmitterApp.bus s /\
    main_events s' = main_events s /\
    MultiCanTransmitterApp.start_button s' = MultiCanTransmitterApp.start_button s /\
    (MultiCanTransmitterApp.periodic_tasks s' = [] ->
     MultiCanTransmitterApp.stop_button s' = disabled) /\
    (MultiCanTransmitterApp.periodic_tasks s' <> [] ->
     MultiCanTransmitterApp.stop_button s' = MultiCanTransmitterApp.stop_button s).
Proof.
  intros Hf Hsel. unfold MultiCanTransmitterApp.remove_message.
  destruct selected_items as [|iid sel]; [congruence|].
  destruct (remove_items_returns inject fuel (iid :: sel) s Hf) as (s1 & E & B & S & T & M).
  rewrite E. simpl.
  destruct (MultiCanTransmitterApp.periodic_tasks s1) as [|a l] eqn:Ep.
  - eexists. split; [reflexivity|]. simpl. rewrite Ep.
    repeat split; try assumption. intros Hn. exfalso. apply Hn. reflexivity.
  - exists s1. split; [reflexivity|]. rewrite Ep.
    repeat split; try assumption; try discriminate. intros _. exact T.
Qed.

Lemma remove_message_buttons_witness :
  exists s',
    MultiCanTransmitterApp.remove_message demo_ok 2 [0] demo_started = Some s' /\
    MultiCanTransmitterApp.bus s' = MultiCanTransmitterApp.bus demo_started /\
    main_events s' = main_events demo_started /\
    MultiCanTransmitterApp.start_button s' = MultiCanTransmitterApp.start_button demo_started /\
    (MultiCanTransmitterApp.periodic_tasks s' = [] ->
     MultiCanTransmitterApp.stop_button s' = disabled) /\
    (MultiCanTransmitterApp.periodic_tasks s' <> [] ->
     MultiCanTransmitterApp.stop_button s'
     = MultiCanTransmitterApp.stop_button demo_started).
Proof.
  refine (remove_message_buttons demo_ok 2 [0] demo_started _ _).
  - lia.
  - discriminate.
Defined.

(** X12.  [reset] returns (given two worker steps per [join]) with
    the bus absent, the registry and the table empty, Start enabled and
    Stop disabled; every transmitter that was in the registry is
    stopped; and the main thread has shut the bus down exactly if one
    was held. *)
Theorem reset_clears_everything
    (inject : nat -> SendOutcome) (fuel : nat) (s : MultiCanTransmitterApp.t) :
  2 <= fuel ->
  exists s',
    MultiCanTransmitterApp.reset inject fuel s = Some s' /\
    MultiCanTransmitterApp.bus s' = None /\
    MultiCanTransmitterApp.periodic_tasks s' = [] /\
    MultiCanTransmitterApp.message_table s' = [] /\
    MultiCanTransmitterApp.start_button s' = normal /\
    MultiCanTransmitterApp.stop_button s' = disabled /\
    main_events s'
    = main_events s ++ match MultiCanTransmitterApp.bus s with
                       | Some b => [EShutdown b]
                       | None => []
                       end /\
    (forall a, a ∈ MultiCanTransmitterApp.periodic_tasks s ->
       is_Some (PeriodicTask.heap (MultiCanTransmitterApp.machine s) !! a) ->
       holds_at stopped a (MultiCanTransmitterApp.machine s')).
Proof.
  intros Hf.
  destruct (stop_each_spec inject fuel (MultiCanTransmitterApp.periodic_tasks s)
              (MultiCanTransmitterApp.machine s) Hf) as (m & E & S & P).
  pose proof (stop_each_main_events inject fuel _ _ _ E) as M.
  unfold MultiCanTransmitterApp.reset. rewrite E. simpl.
  eexists. split; [reflexivity|].
  destruct (MultiCanTransmitterApp.bus s) as [b|] eqn:Eb; simpl.
  - repeat split.
    + unfold main_events. simpl. rewrite events_of_app, M. reflexivity.
    + intros a Ha Hx. destruct (P a Ha Hx) as (x & Hx' & Hst). exists x. auto.
  - rewrite Eb. repeat split.
    + unfold main_events. simpl. rewrite app_nil_r. exact M.
    + exact P.
Qed.

Lemma reset_clears_everything_witness :
  exists s',
    MultiCanTransmitterApp.reset demo_ok 2 demo_started = Some s' /\
    MultiCanTransmitterApp.bus s' = None /\
    MultiCanTransmitterApp.periodic_tasks s' = [] /\
    MultiCanTransmitterApp.message_table s' = [] /\
    MultiCanTransmitterApp.start_button s' = normal /\
    MultiCanTransmitterApp.stop_button s' = disabled /\
    main_events s' = main_events demo_started ++ [EShutdown 7] /\
    (forall a, a ∈ MultiCanTransmitterApp.periodic_tasks demo_started ->
       is_Some (PeriodicTask.heap (MultiCanTransmitterApp.machine demo_started) !! a) ->
       holds_at stopped a (MultiCanTransmitterApp.machine s')).
Proof.
  refine (reset_clears_everything demo_ok 2 demo_started _). lia.
Defined.

(** X13.  [on_closing] returns (given two worker steps per [join])
    with every transmitter of the registry stopped; it neither clears
    the registry nor shuts the bus down. *)
Theorem on_closing_stops_registered
    (inject : nat -> SendOutcome) (fuel : nat) (s : MultiCanTransmitterApp.t) :
  2 <= fuel ->
  exists s',
    MultiCanTransmitterApp.on_closing inject fuel s = Some s' /\
    MultiCanTransmitterApp.periodic_tasks s' = MultiCanTransmitterApp.periodic_tasks s /\
    MultiCanTransmitterApp.bus s' = MultiCanTransmitterApp.bus s /\
    main_events s' = main_events s /\
    (forall a, a ∈ MultiCanTransmitterApp.periodic_tasks s ->
       is_Some (PeriodicTask.heap (MultiCanTransmitterApp.machine s) !! a) ->
       holds_at stopped a (MultiCanTransmitterApp.machine s')).
Proof.
  intros Hf.
  destruct (stop_each_spec inject fuel (MultiCanTransmitterApp.periodic_tasks s)
              (MultiCanTransmitterApp.machine s) Hf) as (m & E & S & P).
  pose proof (stop_each_main_events inject fuel _ _ _ E) as M.
  unfold MultiCanTransmitterApp.on_closing. cbv zeta.
  rewrite log_periodic_tasks, log_machine, E. simpl.
  eexists. split; [reflexivity|]. simpl. repeat split; assumption.
Qed.

Lemma on_closing_stops_registered_witness :
  exists s',
    MultiCanTransmitterApp.on_closing demo_ok 2 demo_started = Some s' /\
    MultiCanTransmitterApp.periodic_tasks s'
    = MultiCanTransmitterApp.periodic_tasks demo_started /\
    MultiCanTransmitterApp.bus s' = MultiCanTransmitterApp.bus demo_started /\
    main_events s' = main_events demo_started /\
    (forall a, a ∈ MultiCanTransmitterApp.periodic_tasks demo_started ->
       is_Some (PeriodicTask.heap (MultiCanTransmitterApp.machine demo_started) !! a) ->
       holds_at stopped a (MultiCanTransmitterApp.machine s')).
Proof.
  refine (on_closing_stops_registered demo_ok 2 demo_started _). lia.
Defined.

(** * Add then remove; enumeration; the scheduler *)

(** X14.  Adding a message and removing its row undoes the addition.
    In a state with allocated registry entries, fresh item identifiers
    and no transmitter for [can_id], [add_message] followed by
    [remove_message] on the row just added returns; the registry and
    the table are what they were before the addition, no transmitter
    of the registry has the identifier, the transmitter created in
    between is stopped, and the bus is untouched (same handle, no
    shutdown). *)
Theorem add_then_remove
    (inject : nat -> SendOutcome) (fuel : nat) (s : MultiCanTransmitterApp.t)
    (can_id : Z) (data : list Z) (cycle_ms : PyFloat) (id_type : string) :
  2 <= fuel ->
  registry_valid s ->
  table_fresh s ->
  MultiCanTransmitterApp.find_task can_id s = None ->
  let s1 := MultiCanTransmitterApp.add_message (Parsed can_id data cycle_ms id_type) s in
  exists s2,
    MultiCanTransmitterApp.remove_message inject fuel
      [MultiCanTransmitterApp.next_item s] s1 = Some s2 /\
    MultiCanTransmitterApp.periodic_tasks s2 = MultiCanTransmitterApp.periodic_tasks s /\
    MultiCanTransmitterApp.message_table s2 = MultiCanTransmitterApp.message_table s /\
    count_id can_id s2 = 0 /\
    MultiCanTransmitterApp.bus s2 = MultiCanTransmitterApp.bus s /\
    main_events s2 = main_events s /\
    holds_at stopped (length (PeriodicTask.heap (MultiCanTransmitterApp.machine s)))
      (MultiCanTransmitterApp.machine s2).
Proof.
  intros Hfuel Hv Hfresh Hf s1.
  destruct (add_message_create can_id data cycle_ms id_type s Hf) as (E1 & E2 & E3 & E4).
  fold s1 in E1, E2, E3, E4.
  set (h := PeriodicTask.heap (MultiCanTransmitterApp.machine s)) in *.
  set (n := length h) in *.
  set (y := PeriodicTask.mk _ _ _ _ _ _ _ _) in E1.
  set (row := mkRow can_id data (fmul (fdiv cycle_ms 1000) 1000) id_type).
  assert (Et : MultiCanTransmitterApp.message_table s1
               = MultiCanTransmitterApp.message_table s
                 ++ [(MultiCanTransmitterApp.next_item s, row)])
    by exact (proj1 (add_message_table (Parsed can_id data cycle_ms id_type) s)).
  destruct (find_fresh_row (MultiCanTransmitterApp.message_table s)
              (MultiCanTransmitterApp.next_item s) row Hfresh) as [Hfind Hfilter].
  (* the search finds the new task *)
  assert (Hsame : Forall (fun b => MultiCanTransmitterApp.has_id (h ++ [y]) can_id b
                                   = MultiCanTransmitterApp.has_id h can_id b)
                    (MultiCanTransmitterApp.periodic_tasks s)).
  { eapply Forall_impl; [exact Hv|]. intros b Hb. apply has_id_app. exact Hb. }
  assert (Hnew : MultiCanTransmitterApp.has_id (h ++ [y]) can_id n = true).
  { subst n. rewrite has_id_middle. subst y. simpl. apply Z.eqb_refl. }
  assert (Hf1 : MultiCanTransmitterApp.find_task can_id s1 = Some n).
  { unfold MultiCanTransmitterApp.find_task. rewrite E1, E3.
    rewrite find_app_none.
    - simpl. rewrite Hnew. reflexivity.
    - rewrite (find_ext _ _ _ Hsame). exact Hf. }
  assert (Hn : n ∉ MultiCanTransmitterApp.periodic_tasks s).
  { intros Hin. unfold registry_valid in Hv. rewrite Forall_forall in Hv.
    specialize (Hv n Hin). fold h in Hv. lia. }
  (* the stop *)
  destruct (stop_spec inject fuel n (MultiCanTransmitterApp.machine s1) Hfuel)
    as (m & Es & _ & Pst).
  destruct (stop_frame inject fuel _ _ _ Es) as [Lm Fm].
  pose proof (stop_main_events inject fuel _ _ _ Es) as Mm.
  assert (Hst : holds_at stopped n m).
  { eapply Pst. rewrite E1. apply list_lookup_middle. reflexivity. }
  (* the call *)
  clearbody s1.
  unfold MultiCanTransmitterApp.remove_message, MultiCanTransmitterApp.remove_items,
    MultiCanTransmitterApp.remove_item.
  rewrite Et, Hfind. change (row_can_id row) with can_id. rewrite Hf1, Es. simpl.
  rewrite ?Et, ?E3, Hfilter, (remove_first_fresh n _ Hn).
  eexists. split; [reflexivity|].
  assert (Hcount : length (filter (fun a => MultiCanTransmitterApp.has_id
                                             (PeriodicTask.heap m) can_id a = true)
                             (MultiCanTransmitterApp.periodic_tasks s)) = 0).
  { rewrite (filter_ext_on _ (MultiCanTransmitterApp.has_id h can_id)).
    - unfold MultiCanTransmitterApp.find_task in Hf. fold h in Hf.
      rewrite (find_none_filter _ _ Hf). reflexivity.
    - apply Forall_forall. intros b Hb. unfold MultiCanTransmitterApp.has_id.
      rewrite Fm by (intros ->; auto). rewrite E1.
      unfold registry_valid in Hv. rewrite Forall_forall in Hv.
      rewrite lookup_app_l by (apply Hv; exact Hb). reflexivity. }
  destruct (MultiCanTransmitterApp.periodic_tasks s) eqn:Ep; simpl; rewrite ?Ep;
    (split; [reflexivity|]); (split; [reflexivity|]);
    (split; [exact Hcount|]); (split; [exact E4|]);
    (split; [unfold main_events; simpl; rewrite Mm, E2; reflexivity | exact Hst]).
Qed.

Lemma add_then_remove_witness :
  let s1 := MultiCanTransmitterApp.add_message (Parsed 512 [7%Z] (Finite 20) "Extended") demo_started in
  exists s2,
    MultiCanTransmitterApp.remove_message demo_ok 2
      [MultiCanTransmitterApp.next_item demo_started] s1 = Some s2 /\
    MultiCanTransmitterApp.periodic_tasks s2
    = MultiCanTransmitterApp.periodic_tasks demo_started /\
    MultiCanTransmitterApp.message_table s2
    = MultiCanTransmitterApp.message_table demo_started /\
    count_id 512 s2 = 0 /\
    MultiCanTransmitterApp.bus s2 = MultiCanTransmitterApp.bus demo_started /\
    main_events s2 = main_events demo_started /\
    holds_at stopped (length (PeriodicTask.heap (MultiCanTransmitterApp.machine demo_started)))
      (MultiCanTransmitterApp.machine s2).
Proof.
  refine (add_then_remove demo_ok 2 demo_started 512 [7%Z] (Finite 20) "Extended" _ _ _ _).
  - lia.
  - unfold registry_valid. vm_compute. repeat constructor.
  - unfold table_fresh. vm_compute. repeat constructor.
  - vm_compute. reflexivity.
Defined.


(** X16.  [CyclicScheduler.remove_task] never removes anything: it
    raises [AttributeError] (the attribute [lock] is not created) and
    leaves the list as it is.  So after any sequence of calls the task
    list is exactly what was added since the last [stop], in order. *)
Theorem scheduler_tasks_only_grow_until_stop
    (cs : list CyclicScheduler.Call) (s : CyclicScheduler.t) :
  CyclicScheduler.tasks (CyclicScheduler.calls cs s)
  = added_since_stop cs (CyclicScheduler.tasks s) /\
  forall task,
    CyclicScheduler.call (CyclicScheduler.RemoveTask task) (CyclicScheduler.calls cs s)
    = (CyclicScheduler.calls cs s, Some (AttributeError "lock")).
Proof.
  split; [|reflexivity].
  revert s. induction cs as [|c cs IH]; intros s; [reflexivity|].
  unfold CyclicScheduler.calls in *. simpl. rewrite IH. destruct c; reflexivity.
Qed.

Lemma setup_can_bus_result_witness :
  fst (MultiCanTransmitterApp.setup_can_bus demo_cfg demo_bad_drv demo_added) = false /\
  MultiCanTransmitterApp.bus
    (snd (MultiCanTransmitterApp.setup_can_bus demo_cfg demo_bad_drv demo_added)) = None /\
  MultiCanTransmitterApp.setup_can_bus demo_cfg demo_bad_drv demo_started
  = (true, demo_started).
Proof.
  pose proof (setup_can_bus_result demo_cfg demo_bad_drv demo_added) as H.
  pose proof (setup_can_bus_result demo_cfg demo_bad_drv demo_started) as H'.
  cbv zeta in H, H'.
  destruct H as (_ & _ & _ & H4 & _). destruct H' as (_ & H2 & _).
  split; [reflexivity|]. split.
  - apply H4. reflexivity.
  - apply H2. eexists. reflexivity.
Defined.

